(** * humanIL: the control-loop trainer of [src/components/Game.vue]

    A shallow embedding of the script block of [Game.vue]: the constants,
    the module-level variables, and the functions [addValues], [reset],
    [targetFunction], [controller], [updateSystem], [startStop], [gameLoop]
    together with the Vue watcher on [loop_active] and the two browser
    interval timers.

    JavaScript numbers are IEEE 754 binary64 values.  The program text is
    embedded once, over an interface [Arith] of the arithmetic it uses, and
    read at two instances:
    - [binary64_with host_sin]: Rocq's primitive floats, whose operations
      are those of the browser.  [Math.sin] alone is left to the
      implementation by ECMA-262, so it is the parameter [host_sin], and
      what is proved of binary64 is proved for every host sine;
    - [exact]: the real numbers.  They are not what the script runs on:
      they are the ideal against which the binary64 values are measured,
      statements such as "periodic" or "evenly spaced" holding there exactly
      and of the binary64 values up to rounding only. *)

From Stdlib Require Import ZArith QArith List String Bool Lia Lra.
From Stdlib Require Import Qround Qabs Reals Qreals.
From Stdlib Require Import Floats.PrimFloat Floats.FloatOps Floats.SpecFloat.
From Stdlib Require Import Numbers.Cyclic.Int63.Uint63.
Import ListNotations.

Set Implicit Arguments.

(** ** The arithmetic of the script *)

(** The operations on numbers that occur in the script.  [lit q] is the
    value of a numeric literal whose decimal expansion is the rational [q]. *)
Class Arith (num : Type) : Type := {
  lit : Q -> num;
  add : num -> num -> num;
  sub : num -> num -> num;
  mul : num -> num -> num;
  div : num -> num -> num;
  rem : num -> num -> num;      (* the operator %  *)
  neg : num -> num;             (* unary minus     *)
  Math_abs : num -> num;
  Math_sin : num -> num;
  ltb : num -> num -> bool;     (* a < b           *)
  geb : num -> num -> bool      (* a >= b          *)
}.

Declare Scope js_scope.
Delimit Scope js_scope with js.
Infix "+" := add : js_scope.
Infix "-" := sub : js_scope.
Infix "*" := mul : js_scope.
Infix "/" := div : js_scope.
Infix "%%" := rem (at level 40, left associativity) : js_scope.
Infix "<?" := ltb : js_scope.
Infix ">=?" := geb (at level 70) : js_scope.
Notation "- x" := (neg x) : js_scope.

(** *** binary64 *)

Module B64.

Definition of_Z (z : Z) : float :=
  match z with
  | Z0 => PrimFloat.zero
  | Zpos _ => PrimFloat.of_uint63 (Uint63.of_Z z)
  | Zneg p => PrimFloat.opp (PrimFloat.of_uint63 (Uint63.of_Z (Zpos p)))
  end.

(** A decimal literal denotes the binary64 value nearest to it; so does
    the correctly rounded quotient of its numerator and denominator, both
    of which are exact for the literals of the script. *)
Definition lit (q : Q) : float :=
  PrimFloat.div (of_Z (Qnum q)) (of_Z (Zpos (Qden q))).

Definition signed_zero (s : bool) : float :=
  if s then PrimFloat.neg_zero else PrimFloat.zero.

(** [x % y] (ECMA-262, Number::remainder): the exact remainder of the
    truncating division, with the sign of the dividend. *)
Definition rem (x y : float) : float :=
  match Prim2SF x, Prim2SF y with
  | S754_nan, _ | _, S754_nan => PrimFloat.nan
  | S754_infinity _, _ => PrimFloat.nan
  | _, S754_zero _ => PrimFloat.nan
  | S754_zero _, _ => x
  | S754_finite _ _ _, S754_infinity _ => x
  | S754_finite sx mx ex, S754_finite _ my ey =>
      let e := Z.min ex ey in
      let a := (Zpos mx * 2 ^ (ex - e))%Z in
      let b := (Zpos my * 2 ^ (ey - e))%Z in
      match (a mod b)%Z with
      | Zpos r => SF2Prim (S754_finite sx r e)
      | _ => signed_zero sx
      end
  end.

Definition pi : float := lit 3.141592653589793.

(** [Math.sin] is implementation-approximated (ECMA-262, 21.3.2.30): its
    values are the host's choice, and differ between engines in the last
    digits.  The [sin] below is a sample host, not the sine of any browser:
    it reduces the argument to [-pi, pi] and sums the Taylor series up to
    the term of degree 41, which on the arguments of a session is right to
    about fifteen digits.  It serves to run the model on examples; no
    theorem depends on its values. *)
Fixpoint sin_series (n : nat) (k : Z) (x2 term : float) : float :=
  match n with
  | O => PrimFloat.zero
  | S n' =>
      PrimFloat.add term
        (sin_series n' (k + 2)
           x2 (PrimFloat.div (PrimFloat.opp (PrimFloat.mul term x2))
                             (of_Z ((k + 1) * (k + 2)))))
  end.

Definition sin (x : float) : float :=
  let r := rem x (PrimFloat.mul (of_Z 2) pi) in
  let r :=
    if PrimFloat.ltb pi r then PrimFloat.sub r (PrimFloat.mul (of_Z 2) pi)
    else if PrimFloat.ltb r (PrimFloat.opp pi)
         then PrimFloat.add r (PrimFloat.mul (of_Z 2) pi)
         else r in
  if PrimFloat.is_nan r then r
  else sin_series 21 1 (PrimFloat.mul r r) r.

End B64.

(** The numbers of a browser whose sine is [host_sin]. *)
Definition binary64_with (host_sin : float -> float) : Arith float := {|
  lit := B64.lit;
  add := PrimFloat.add;
  sub := PrimFloat.sub;
  mul := PrimFloat.mul;
  div := PrimFloat.div;
  rem := B64.rem;
  neg := PrimFloat.opp;
  Math_abs := PrimFloat.abs;
  Math_sin := host_sin;
  ltb := PrimFloat.ltb;
  geb := fun a b => PrimFloat.leb b a
|}.

(** A browser with the sample sine, to run examples on. *)
Definition binary64 : Arith float := binary64_with B64.sin.

(** *** exact arithmetic *)

Module Exact.

(** Truncation towards zero. *)
Definition trunc (x : R) : Z :=
  if Rle_dec 0 x then Int_part x else (- Int_part (- x))%Z.

Definition rem (x y : R) : R := (x - y * IZR (trunc (x / y)))%R.

Definition ltb (a b : R) : bool := if Rlt_dec a b then true else false.
Definition geb (a b : R) : bool := if Rge_dec a b then true else false.

End Exact.

Definition exact : Arith R := {|
  lit := Q2R;
  add := Rplus;
  sub := Rminus;
  mul := Rmult;
  div := Rdiv;
  rem := Exact.rem;
  neg := Ropp;
  Math_abs := Rabs;
  Math_sin := Rtrigo_def.sin;
  ltb := Exact.ltb;
  geb := Exact.geb
|}.

(** ** The state of the component *)

(** The two interval callbacks the script registers with [window.setInterval]:
    [() => { gameLoop() }] and the countdown closure of [startStop]. *)
Inductive callback : Set := RunGameLoop | CountdownTick.

(** The module-level variables of the script, in the order it declares them
    (a [ref] is its [.value]), followed by what the runtime holds for it: the
    value of [loop_active] the watcher last ran on, the browser's live interval
    timers by handle, and the next handle [setInterval] hands out.  The chart
    object belongs to the rendering layer and is not part of the state. *)
Record globals_of (num : Type) : Type := {
  channel1 : list num;
  channel2 : list num;
  loop_active : bool;
  intervalId : option nat;
  userInput : Z;
  game_mode : string;
  target_function : string;
  score : Z;
  countdown : Z;
  finished : bool;
  aborted : bool;
  t : num;
  y1 : num;
  y2 : num;
  integral : num;
  lastError : num;
  countdownTimer : option nat;
  watch_seen : bool;
  timers : list (nat * callback);
  next_timer : nat
}.

Arguments channel1 {num} _.
Arguments channel2 {num} _.
Arguments loop_active {num} _.
Arguments intervalId {num} _.
Arguments userInput {num} _.
Arguments game_mode {num} _.
Arguments target_function {num} _.
Arguments score {num} _.
Arguments countdown {num} _.
Arguments finished {num} _.
Arguments aborted {num} _.
Arguments t {num} _.
Arguments y1 {num} _.
Arguments y2 {num} _.
Arguments integral {num} _.
Arguments lastError {num} _.
Arguments countdownTimer {num} _.
Arguments watch_seen {num} _.
Arguments timers {num} _.
Arguments next_timer {num} _.

(** ** The script *)

Arguments lit {num Arith} q%_Q.

Section Script.

Context {num : Type} {A : Arith num}.

(** [NaN], the value the chart library skips. *)
Variable NaN : num.

Abbreviation globals := (globals_of num).

(** *** Assignment to one variable *)

Definition set_channel1 (v : list num) (s : globals) : globals :=
  {| channel1 := v; channel2 := channel2 s; loop_active := loop_active s;
     intervalId := intervalId s; userInput := userInput s; game_mode :=
     game_mode s; target_function := target_function s; score := score s;
     countdown := countdown s; finished := finished s; aborted := aborted s; t
     := t s; y1 := y1 s; y2 := y2 s; integral := integral s; lastError :=
     lastError s; countdownTimer := countdownTimer s; watch_seen := watch_seen
     s; timers := timers s; next_timer := next_timer s |}.

Definition set_channel2 (v : list num) (s : globals) : globals :=
  {| channel1 := channel1 s; channel2 := v; loop_active := loop_active s;
     intervalId := intervalId s; userInput := userInput s; game_mode :=
     game_mode s; target_function := target_function s; score := score s;
     countdown := countdown s; finished := finished s; aborted := aborted s; t
     := t s; y1 := y1 s; y2 := y2 s; integral := integral s; lastError :=
     lastError s; countdownTimer := countdownTimer s; watch_seen := watch_seen
     s; timers := timers s; next_timer := next_timer s |}.

Definition set_loop_active (v : bool) (s : globals) : globals :=
  {| channel1 := channel1 s; channel2 := channel2 s; loop_active := v;
     intervalId := intervalId s; userInput := userInput s; game_mode :=
     game_mode s; target_function := target_function s; score := score s;
     countdown := countdown s; finished := finished s; aborted := aborted s; t
     := t s; y1 := y1 s; y2 := y2 s; integral := integral s; lastError :=
     lastError s; countdownTimer := countdownTimer s; watch_seen := watch_seen
     s; timers := timers s; next_timer := next_timer s |}.

Definition set_intervalId (v : option nat) (s : globals) : globals :=
  {| channel1 := channel1 s; channel2 := channel2 s; loop_active :=
     loop_active s; intervalId := v; userInput := userInput s; game_mode :=
     game_mode s; target_function := target_function s; score := score s;
     countdown := countdown s; finished := finished s; aborted := aborted s; t
     := t s; y1 := y1 s; y2 := y2 s; integral := integral s; lastError :=
     lastError s; countdownTimer := countdownTimer s; watch_seen := watch_seen
     s; timers := timers s; next_timer := next_timer s |}.

Definition set_userInput (v : Z) (s : globals) : globals :=
  {| channel1 := channel1 s; channel2 := channel2 s; loop_active :=
     loop_active s; intervalId := intervalId s; userInput := v; game_mode :=
     game_mode s; target_function := target_function s; score := score s;
     countdown := countdown s; finished := finished s; aborted := aborted s; t
     := t s; y1 := y1 s; y2 := y2 s; integral := integral s; lastError :=
     lastError s; countdownTimer := countdownTimer s; watch_seen := watch_seen
     s; timers := timers s; next_timer := next_timer s |}.

Definition set_game_mode (v : string) (s : globals) : globals :=
  {| channel1 := channel1 s; channel2 := channel2 s; loop_active :=
     loop_active s; intervalId := intervalId s; userInput := userInput s;
     game_mode := v; target_function := target_function s; score := score s;
     countdown := countdown s; finished := finished s; aborted := aborted s; t
     := t s; y1 := y1 s; y2 := y2 s; integral := integral s; lastError :=
     lastError s; countdownTimer := countdownTimer s; watch_seen := watch_seen
     s; timers := timers s; next_timer := next_timer s |}.

Definition set_target_function (v : string) (s : globals) : globals :=
  {| channel1 := channel1 s; channel2 := channel2 s; loop_active :=
     loop_active s; intervalId := intervalId s; userInput := userInput s;
     game_mode := game_mode s; target_function := v; score := score s;
     countdown := countdown s; finished := finished s; aborted := aborted s; t
     := t s; y1 := y1 s; y2 := y2 s; integral := integral s; lastError :=
     lastError s; countdownTimer := countdownTimer s; watch_seen := watch_seen
     s; timers := timers s; next_timer := next_timer s |}.

Definition set_score (v : Z) (s : globals) : globals :=
  {| channel1 := channel1 s; channel2 := channel2 s; loop_active :=
     loop_active s; intervalId := intervalId s; userInput := userInput s;
     game_mode := game_mode s; target_function := target_function s; score :=
     v; countdown := countdown s; finished := finished s; aborted := aborted
     s; t := t s; y1 := y1 s; y2 := y2 s; integral := integral s; lastError :=
     lastError s; countdownTimer := countdownTimer s; watch_seen := watch_seen
     s; timers := timers s; next_timer := next_timer s |}.

Definition set_countdown (v : Z) (s : globals) : globals :=
  {| channel1 := channel1 s; channel2 := channel2 s; loop_active :=
     loop_active s; intervalId := intervalId s; userInput := userInput s;
     game_mode := game_mode s; target_function := target_function s; score :=
     score s; countdown := v; finished := finished s; aborted := aborted s; t
     := t s; y1 := y1 s; y2 := y2 s; integral := integral s; lastError :=
     lastError s; countdownTimer := countdownTimer s; watch_seen := watch_seen
     s; timers := timers s; next_timer := next_timer s |}.

Definition set_finished (v : bool) (s : globals) : globals :=
  {| channel1 := channel1 s; channel2 := channel2 s; loop_active :=
     loop_active s; intervalId := intervalId s; userInput := userInput s;
     game_mode := game_mode s; target_function := target_function s; score :=
     score s; countdown := countdown s; finished := v; aborted := aborted s; t
     := t s; y1 := y1 s; y2 := y2 s; integral := integral s; lastError :=
     lastError s; countdownTimer := countdownTimer s; watch_seen := watch_seen
     s; timers := timers s; next_timer := next_timer s |}.

Definition set_aborted (v : bool) (s : globals) : globals :=
  {| channel1 := channel1 s; channel2 := channel2 s; loop_active :=
     loop_active s; intervalId := intervalId s; userInput := userInput s;
     game_mode := game_mode s; target_function := target_function s; score :=
     score s; countdown := countdown s; finished := finished s; aborted := v;
     t := t s; y1 := y1 s; y2 := y2 s; integral := integral s; lastError :=
     lastError s; countdownTimer := countdownTimer s; watch_seen := watch_seen
     s; timers := timers s; next_timer := next_timer s |}.

Definition set_t (v : num) (s : globals) : globals :=
  {| channel1 := channel1 s; channel2 := channel2 s; loop_active :=
     loop_active s; intervalId := intervalId s; userInput := userInput s;
     game_mode := game_mode s; target_function := target_function s; score :=
     score s; countdown := countdown s; finished := finished s; aborted :=
     aborted s; t := v; y1 := y1 s; y2 := y2 s; integral := integral s;
     lastError := lastError s; countdownTimer := countdownTimer s; watch_seen
     := watch_seen s; timers := timers s; next_timer := next_timer s |}.

Definition set_y1 (v : num) (s : globals) : globals :=
  {| channel1 := channel1 s; channel2 := channel2 s; loop_active :=
     loop_active s; intervalId := intervalId s; userInput := userInput s;
     game_mode := game_mode s; target_function := target_function s; score :=
     score s; countdown := countdown s; finished := finished s; aborted :=
     aborted s; t := t s; y1 := v; y2 := y2 s; integral := integral s;
     lastError := lastError s; countdownTimer := countdownTimer s; watch_seen
     := watch_seen s; timers := timers s; next_timer := next_timer s |}.

Definition set_y2 (v : num) (s : globals) : globals :=
  {| channel1 := channel1 s; channel2 := channel2 s; loop_active :=
     loop_active s; intervalId := intervalId s; userInput := userInput s;
     game_mode := game_mode s; target_function := target_function s; score :=
     score s; countdown := countdown s; finished := finished s; aborted :=
     aborted s; t := t s; y1 := y1 s; y2 := v; integral := integral s;
     lastError := lastError s; countdownTimer := countdownTimer s; watch_seen
     := watch_seen s; timers := timers s; next_timer := next_timer s |}.

Definition set_integral (v : num) (s : globals) : globals :=
  {| channel1 := channel1 s; channel2 := channel2 s; loop_active :=
     loop_active s; intervalId := intervalId s; userInput := userInput s;
     game_mode := game_mode s; target_function := target_function s; score :=
     score s; countdown := countdown s; finished := finished s; aborted :=
     aborted s; t := t s; y1 := y1 s; y2 := y2 s; integral := v; lastError :=
     lastError s; countdownTimer := countdownTimer s; watch_seen := watch_seen
     s; timers := timers s; next_timer := next_timer s |}.

Definition set_lastError (v : num) (s : globals) : globals :=
  {| channel1 := channel1 s; channel2 := channel2 s; loop_active :=
     loop_active s; intervalId := intervalId s; userInput := userInput s;
     game_mode := game_mode s; target_function := target_function s; score :=
     score s; countdown := countdown s; finished := finished s; aborted :=
     aborted s; t := t s; y1 := y1 s; y2 := y2 s; integral := integral s;
     lastError := v; countdownTimer := countdownTimer s; watch_seen :=
     watch_seen s; timers := timers s; next_timer := next_timer s |}.

Definition set_countdownTimer (v : option nat) (s : globals) : globals :=
  {| channel1 := channel1 s; channel2 := channel2 s; loop_active :=
     loop_active s; intervalId := intervalId s; userInput := userInput s;
     game_mode := game_mode s; target_function := target_function s; score :=
     score s; countdown := countdown s; finished := finished s; aborted :=
     aborted s; t := t s; y1 := y1 s; y2 := y2 s; integral := integral s;
     lastError := lastError s; countdownTimer := v; watch_seen := watch_seen
     s; timers := timers s; next_timer := next_timer s |}.

Definition set_watch_seen (v : bool) (s : globals) : globals :=
  {| channel1 := channel1 s; channel2 := channel2 s; loop_active :=
     loop_active s; intervalId := intervalId s; userInput := userInput s;
     game_mode := game_mode s; target_function := target_function s; score :=
     score s; countdown := countdown s; finished := finished s; aborted :=
     aborted s; t := t s; y1 := y1 s; y2 := y2 s; integral := integral s;
     lastError := lastError s; countdownTimer := countdownTimer s; watch_seen
     := v; timers := timers s; next_timer := next_timer s |}.

Definition set_timers (v : list (nat * callback)) (s : globals) : globals :=
  {| channel1 := channel1 s; channel2 := channel2 s; loop_active :=
     loop_active s; intervalId := intervalId s; userInput := userInput s;
     game_mode := game_mode s; target_function := target_function s; score :=
     score s; countdown := countdown s; finished := finished s; aborted :=
     aborted s; t := t s; y1 := y1 s; y2 := y2 s; integral := integral s;
     lastError := lastError s; countdownTimer := countdownTimer s; watch_seen
     := watch_seen s; timers := v; next_timer := next_timer s |}.

Definition set_next_timer (v : nat) (s : globals) : globals :=
  {| channel1 := channel1 s; channel2 := channel2 s; loop_active :=
     loop_active s; intervalId := intervalId s; userInput := userInput s;
     game_mode := game_mode s; target_function := target_function s; score :=
     score s; countdown := countdown s; finished := finished s; aborted :=
     aborted s; t := t s; y1 := y1 s; y2 := y2 s; integral := integral s;
     lastError := lastError s; countdownTimer := countdownTimer s; watch_seen
     := watch_seen s; timers := timers s; next_timer := v |}.

(** *** Statements: state-passing computations over the variables *)

Definition M (X : Type) : Type := globals -> X * globals.

Definition ret {X} (x : X) : M X := fun s => (x, s).

Definition bind {X Y} (c : M X) (k : X -> M Y) : M Y :=
  fun s => let (x, s') := c s in k x s'.

Notation "x <- c ;; k" := (bind c (fun x => k))
  (at level 61, c at next level, right associativity).
Notation "c ;; k" := (bind c (fun _ => k))
  (at level 61, right associativity).

Definition get {X} (var : globals -> X) : M X := fun s => (var s, s).

Definition put {X} (set : X -> globals -> globals) (v : X) : M unit :=
  fun s => (tt, set v s).

Definition when (b : bool) (c : M unit) : M unit := if b then c else ret tt.

Definition exec {X} (c : M X) (s : globals) : globals := snd (c s).
Definition eval {X} (c : M X) (s : globals) : X := fst (c s).

(** *** Constants *)

Definition loop_ms : Q := 50.
Definition display_seconds : Q := 10.
Definition timeout_seconds : Q := 15.
Definition margin : Q := 0.15.
Definition countdown_seconds : Z := 3.

(** [Math.floor((display_seconds * 1000) / loop_ms)]: every operand and the
    quotient are integers, so the arithmetic is exact. *)
Definition listSize : nat :=
  Z.to_nat (Qfloor ((display_seconds * 1000) / loop_ms)).

Local Open Scope js_scope.

(** The number an integer converts to. *)
Definition Number (z : Z) : num := lit (inject_Z z).

(** *** Fixed time vector *)

Definition dt : num := lit loop_ms / lit 1000.

(** [Array.from({ length: n }, (_, i) => f i)] *)
Definition Array_from {X} (n : nat) (f : nat -> X) : list X := map f (seq 0 n).

(** [a[i] = v] for an index inside the array. *)
Fixpoint store {X} (a : list X) (i : nat) (v : X) : list X :=
  match a, i with
  | [], _ => []
  | _ :: a', O => v :: a'
  | x :: a', S i' => x :: store a' i' v
  end.

(** The assignment [timeVector[timeVector.length - 1] = 0] writes the last
    element; on an empty array the index is -1 and no element is written. *)
Definition timeVector : list num :=
  let timeVector :=
    Array_from listSize
      (fun i => - lit display_seconds + Number (Z.of_nat i) * dt) in
  match List.length timeVector with
  | O => timeVector
  | S last => store timeVector last (lit 0)
  end.

(** *** Data lists *)

(** [Array(listSize).fill(NaN)] *)
Definition blank : list num := repeat NaN listSize.

(** The chart is redrawn from the two lists; nothing of the state changes. *)
Definition updateChart : M unit := ret tt.

Definition addValues (value1 value2 : num) : M unit :=
  (* Channel 1 *)
  c <- get channel1 ;; put set_channel1 (c ++ [value1]) ;;
  c <- get channel1 ;;
  when (listSize <? List.length c)%nat (put set_channel1 (tl c)) ;;
  (* Channel 2 *)
  c <- get channel2 ;; put set_channel2 (c ++ [value2]) ;;
  c <- get channel2 ;;
  when (listSize <? List.length c)%nat (put set_channel2 (tl c)) ;;
  updateChart.

(** *** Browser timers *)

(** The live timers are kept by handle. *)
Definition lookup (live : list (nat * callback)) (h : nat) : option callback :=
  option_map snd (find (fun p => (fst p =? h)%nat) live).

Definition cleared (h : nat) (live : list (nat * callback))
  : list (nat * callback) :=
  filter (fun p => negb (fst p =? h)%nat) live.

Definition setInterval (cb : callback) : M nat :=
  h <- get next_timer ;;
  live <- get timers ;;
  put set_timers ((h, cb) :: live) ;;
  put set_next_timer (S h) ;;
  ret h.

(** [clearInterval(id)]; a [null] handle clears nothing. *)
Definition clearInterval (id : option nat) : M unit :=
  match id with
  | Some h => live <- get timers ;; put set_timers (cleared h live)
  | None => ret tt
  end.

(** *** The watcher on [loop_active] *)

Definition watch_loop_active (newVal : bool) : M unit :=
  if newVal then
    (* Start the loop *)
    h <- setInterval RunGameLoop ;;
    put set_intervalId (Some h)
  else
    (* Stop the loop *)
    id <- get intervalId ;;
    match id with
    | Some _ =>
        clearInterval id ;;
        put set_intervalId None ;;
        a <- get aborted ;;
        when (negb a) (put set_finished true) ;;
        put set_aborted false
    | None => ret tt
    end.

(** Vue runs a watcher after the handler that changed its source has
    returned, and only when the source differs from the value the watcher
    last saw. *)
Definition flush : M unit :=
  now <- get loop_active ;;
  seen <- get watch_seen ;;
  if Bool.eqb now seen then ret tt
  else put set_watch_seen now ;; watch_loop_active now.

(** *** [reset] *)

Definition reset : M unit :=
  put set_score 0%Z ;;
  put set_userInput 0%Z ;;
  active <- get loop_active ;;
  when active (put set_aborted true) ;;
  put set_loop_active false ;;
  put set_finished false ;;
  put set_channel1 blank ;;
  put set_channel2 blank ;;
  put set_t (lit 0) ;;
  put set_y2 (lit 0) ;; put set_y1 (lit 0) ;;
  put set_lastError (lit 0) ;; put set_integral (lit 0) ;;
  updateChart.

(** *** Plant and controller constants *)

Definition MODE : string := "PT2".
Definition K : Q := 1.0.
Definition T : Q := 1.0.
Definition D : Q := 0.5.
Definition wn : Q := 2.0.

Definition Kp : Q := 3.28.
Definition Ki : Q := 3.38.
Definition Kd : Q := 1.48.

(** [a === b] on strings. *)
Definition equal (a b : string) : bool := String.eqb a b.

(** *** Target function *)

(** The body of [targetFunction] for the value [f] of [target_function]. *)
Definition waveform (f : string) (time : num) : num :=
  let freq := lit 0.4 in
  (* triangle *)
  if equal f "1" then
    lit 1 - lit 4 *
      Math_abs (((((time + lit 0.25 / freq) * freq) / lit 2) %% lit 1)
                - lit 0.5)
  (* sawtooth *)
  else if equal f "2" then
    lit 2 * (((time + lit 0.25 / freq) * freq) %% lit 1) - lit 1
  (* double sine *)
  else if equal f "3" then
    Math_sin (lit 0.3 * time) + lit 0.3 * Math_sin (lit 2 * time)
  (* simple sine *)
  else Math_sin (lit 0.3 * time).

Definition targetFunction (time : num) : M num :=
  f <- get target_function ;;
  ret (waveform f time).

(** *** Controller *)

Definition controller (target actual : num) : M num :=
  let error := target - actual in
  i <- get integral ;; put set_integral (i + error * dt) ;;
  e <- get lastError ;;
  let derivative := (error - e) / dt in
  put set_lastError error ;;
  (* PID output *)
  i <- get integral ;;
  let u := lit Kp * error + lit Ki * i + lit Kd * derivative in
  ret u.

(** *** Plant *)

Definition updateSystem (u : num) : M num :=
  (if equal MODE "PT1" then
     (* PT1 system *)
     y <- get y1 ;; put set_y1 (y + (dt / lit T) * (lit K * u - y))
   else
     (* PT2 system *)
     y <- get y1 ;; v <- get y2 ;; put set_y1 (y + dt * v) ;;
     v <- get y2 ;; y <- get y1 ;;
     put set_y2 (v + dt * (lit wn * lit wn * (lit K * u - y)
                           - lit 2 * lit D * lit wn * v))) ;;
  get y1.

(** *** [startStop] and the countdown *)

Definition startStop : M unit :=
  active <- get loop_active ;;
  if active then put set_loop_active false
  else
    mode <- get game_mode ;;
    (* skip countdown for closedL-auto *)
    if equal mode "closedL-auto" then put set_loop_active true
    else
      timer <- get countdownTimer ;;
      match timer with
      | Some _ =>
          (* the countdown is already running: stop it and reset state *)
          clearInterval timer ;;
          put set_countdownTimer None ;;
          put set_countdown (-1)%Z ;;
          put set_loop_active false
      | None =>
          put set_countdown countdown_seconds ;;
          put set_loop_active false ;;
          h <- setInterval CountdownTick ;;
          put set_countdownTimer (Some h)
      end.

(** The closure [startStop] hands to [setInterval], run once a second. *)
Definition countdownStep : M unit :=
  c <- get countdown ;; put set_countdown (c - 1)%Z ;;
  c <- get countdown ;;
  if (c <=? 0)%Z then
    timer <- get countdownTimer ;;
    clearInterval timer ;;
    put set_countdownTimer None ;;
    put set_countdown (-1)%Z ;;
    put set_loop_active true
  else ret tt.

(** *** [gameLoop] *)

Definition gameLoop : M unit :=
  let input := lit 0 in
  now <- get t ;;
  target <- targetFunction now ;;
  now <- get t ;; put set_t (now + dt) ;;
  (* stop the game *)
  now <- get t ;;
  when (now >=? lit timeout_seconds) (put set_loop_active false) ;;
  mode <- get game_mode ;;
  wired <-
    (if equal mode "humanil" || equal mode "openL" then
       u <- get userInput ;;
       let input := Number u / lit 100 in
       if equal mode "openL" then ret (input, input) else ret (input, target)
     else if equal mode "closedL" || equal mode "closedL-auto" then
       target <-
         (if equal mode "closedL" then
            u <- get userInput ;; ret (Number u / lit 100)
          else ret target) ;;
       y <- get y1 ;;
       input <- controller target y ;;
       ret (input, target)
     else ret (input, target)) ;;
  let (input, target) := wired : num * num in
  (* system response *)
  output <- updateSystem input ;;
  (* scoring *)
  (if equal mode "humanil" || equal mode "closedL-auto" then
     let error := target - output in
     when (Math_abs error <? lit margin)
       (sc <- get score ;; put set_score (sc + 1)%Z)
   else ret tt) ;;
  addValues target output.

(** *** [onBeforeUnmount] *)


(** ** The component as a transition system *)

(** The state when the component is mounted. *)
Definition mounted : globals := {|
  channel1 := blank;
  channel2 := blank;
  loop_active := false;
  intervalId := None;
  userInput := 0;
  game_mode := "humanil";
  target_function := "1";
  score := 0;
  countdown := -1;
  finished := false;
  aborted := false;
  t := lit 0;
  y1 := lit 0;
  y2 := lit 0;
  integral := lit 0;
  lastError := lit 0;
  countdownTimer := None;
  watch_seen := false;
  timers := [];
  next_timer := 1
|}.

(** What can happen to the component: the clicks and selections the template
    offers, and a live interval timer firing. *)
Inductive event : Set :=
| ClickStartStop
| ClickReset
| Slide (value : Z)
| SelectMode (mode : string)
| SelectFunction (f : string)
| Fire (handle : nat).

Definition timer_callback (s : globals) (h : nat) : option callback :=
  lookup (timers s) h.

Definition mode_options : list string :=
  ["openL"; "humanil"; "closedL"; "closedL-auto"]%string.
Definition function_options : list string := ["0"; "1"; "2"; "3"]%string.

Definition offered (options : list string) (v : string) : bool :=
  existsb (equal v) options.

(** A handler runs to completion, then the pending watcher runs.  [None]
    when the template does not offer the event in this state: a control that
    is [:disabled], an option outside a select's list or the slider's range,
    a timer that is not live. *)
Definition step (s : globals) (e : event) : option globals :=
  match e with
  | ClickStartStop =>
      if finished s then None else Some (exec (startStop ;; flush) s)
  | ClickReset => Some (exec (reset ;; flush) s)
  | Slide v =>
      if equal (game_mode s) "closedL-auto" then None
      else if ((-150 <=? v) && (v <=? 150))%Z
           then Some (exec (put set_userInput v ;; flush) s)
           else None
  | SelectMode m =>
      if loop_active s then None
      else if offered mode_options m
           then Some (exec (put set_game_mode m ;; flush) s)
           else None
  | SelectFunction f =>
      if loop_active s || equal (game_mode s) "openL" || equal (game_mode s) "closedL"
      then None
      else if offered function_options f
           then Some (exec (put set_target_function f ;; flush) s)
           else None
  | Fire h =>
      match timer_callback s h with
      | Some RunGameLoop => Some (exec (gameLoop ;; flush) s)
      | Some CountdownTick => Some (exec (countdownStep ;; flush) s)
      | None => None
      end
  end.

Fixpoint run (s : globals) (es : list event) : option globals :=
  match es with
  | [] => Some s
  | e :: es' =>
      match step s e with
      | Some s' => run s' es'
      | None => None
      end
  end.

(** The states the component can be in. *)
Inductive reachable : globals -> Prop :=
| reachable_mounted : reachable mounted
| reachable_step s e s' : reachable s -> step s e = Some s' -> reachable s'.

End Script.

(** * Specification-level notions *)

Arguments lit : simpl never.
Arguments listSize : simpl never.
Arguments equal : simpl never.

Section Notions.

Context {num : Type} {A : Arith num}.
Variable NaN : num.
Local Open Scope js_scope.

Abbreviation globals := (globals_of num).

(** The simulation state: clock, plant state, controller state, score and
    the two buffered series. *)
Definition simulation (s : globals) :=
  (t s, (y1 s, y2 s), (integral s, lastError s), score s,
   (channel1 s, channel2 s)).

(** The state after a list of events, an event the template does not offer
    being without effect. *)
Definition after (es : list event) : globals :=
  fold_left (fun s e => match step NaN s e with Some s' => s' | None => s end)
            es (mounted NaN).

(** An event that is neither Reset nor a tick of the game loop. *)
Definition quiet (s : globals) (e : event) : bool :=
  match e with
  | ClickReset => false
  | Fire h =>
      match timer_callback s h with
      | Some RunGameLoop => false
      | _ => true
      end
  | _ => true
  end.

(** A run of events all of which are offered and [quiet]. *)
Fixpoint all_quiet (s : globals) (es : list event) : bool :=
  match es with
  | [] => true
  | e :: es' =>
      quiet s e &&
      match step NaN s e with
      | Some s' => all_quiet s' es'
      | None => false
      end
  end.

(** *** Time axis *)

(** The label at index [i], before the last one is overwritten. *)
Definition label (i : nat) : num :=
  - lit display_seconds + Number (Z.of_nat i) * dt.

(** *** Controller *)

(** The controller state of the specification and its [compute]: the error,
    the integral advanced by [error * dt], the derivative against the
    previous error, the previous error replaced, the weighted sum returned. *)
Record ControllerState : Type := {
  cs_integral : num;
  cs_lastError : num
}.

Definition compute (c : ControllerState) (target measured : num)
  : num * ControllerState :=
  let error := target - measured in
  let integral' := cs_integral c + error * dt in
  let derivative := (error - cs_lastError c) / dt in
  (lit 3.28 * error + lit 3.38 * integral' + lit 1.48 * derivative,
   {| cs_integral := integral'; cs_lastError := error |}).

Definition controller_state (s : globals) : ControllerState :=
  {| cs_integral := integral s; cs_lastError := lastError s |}.

(** *** Plant *)

(** The plant state of the specification and its second-order step:
    [y1 += dt * y2; y2 += dt * (wn^2 * (K * u - y1) - 2 * D * wn * y2)]
    with [K = 1.0], [D = 0.5], [wn = 2.0]. *)
Record PlantState : Type := {
  ps_y1 : num;
  ps_y2 : num
}.

Definition PT2_step (p : PlantState) (u : num) : PlantState :=
  let y1' := ps_y1 p + dt * ps_y2 p in
  let y2' :=
    ps_y2 p + dt * (lit 2.0 * lit 2.0 * (lit 1.0 * u - y1')
                    - lit 2 * lit 0.5 * lit 2.0 * ps_y2 p) in
  {| ps_y1 := y1'; ps_y2 := y2' |}.

Definition plant_state (s : globals) : PlantState :=
  {| ps_y1 := y1 s; ps_y2 := y2 s |}.

(** *** Rolling buffer *)

(** One series after [push] followed by the conditional [shift]. *)
Definition pushed (series : list num) (v : num) : list num :=
  if (listSize <? List.length (series ++ [v]))%nat
  then tl (series ++ [v]) else series ++ [v].

(** [addValues] applied to a list of (target, output) pairs, in order. *)
Definition appends (vs : list (num * num)) (s : globals) : globals :=
  fold_left (fun s v => exec (addValues (fst v) (snd v)) s) vs s.

(** *** Scoring *)

Definition scoring (mode : string) : bool :=
  equal mode "humanil" || equal mode "closedL-auto".

(** *** One tick, as a function

    What [gameLoop] makes of a state: the target and the plant input by
    mode, the controller consulted in the closed-loop modes only, the plant
    stepped, the score raised inside the margin in the scoring modes, both
    values appended, the clock advanced and the run flag lowered at the
    timeout. *)
Definition tick (s : globals) : globals :=
  let mode := game_mode s in
  let wave := waveform (target_function s) (t s) in
  let slider := Number (userInput s) / lit 100 in
  let wired :=
    if equal mode "humanil" || equal mode "openL" then
      if equal mode "openL" then (slider, slider, controller_state s)
      else (slider, wave, controller_state s)
    else if equal mode "closedL" || equal mode "closedL-auto" then
      let target := if equal mode "closedL" then slider else wave in
      let r := compute (controller_state s) target (y1 s) in
      (fst r, target, snd r)
    else (lit 0, wave, controller_state s) in
  let input := fst (fst wired) in
  let target := snd (fst wired) in
  let c := snd wired in
  let p := PT2_step (plant_state s) input in
  let output := ps_y1 p in
  {| channel1 := pushed (channel1 s) target;
     channel2 := pushed (channel2 s) output;
     loop_active :=
       if t s + dt >=? lit timeout_seconds then false else loop_active s;
     intervalId := intervalId s;
     userInput := userInput s;
     game_mode := game_mode s;
     target_function := target_function s;
     score :=
       if equal mode "humanil" || equal mode "closedL-auto" then
         if Math_abs (target - output) <? lit margin
         then (score s + 1)%Z else score s
       else score s;
     countdown := countdown s;
     finished := finished s;
     aborted := aborted s;
     t := t s + dt;
     y1 := output;
     y2 := ps_y2 p;
     integral := cs_integral c;
     lastError := cs_lastError c;
     countdownTimer := countdownTimer s;
     watch_seen := watch_seen s;
     timers := timers s;
     next_timer := next_timer s |}.

(** *** Consistency of the run flags with the timers

    What holds of the state whenever no handler is running: [aborted] is
    down, the watcher has seen the current [loop_active], the game-loop
    timer is live exactly when [loop_active] is up and [intervalId] is its
    handle, the countdown timer is live exactly when [countdownTimer] holds
    its handle, and no handle yet to be handed out is live. *)
Record consistent (s : globals) : Prop := {
  c_aborted : aborted s = false;
  c_seen : watch_seen s = loop_active s;
  c_active : loop_active s = match intervalId s with
                             | Some _ => true
                             | None => false
                             end;
  c_interval : forall h,
      lookup (timers s) h = Some RunGameLoop <-> intervalId s = Some h;
  c_countdown : forall h,
      lookup (timers s) h = Some CountdownTick <-> countdownTimer s = Some h;
  c_fresh : forall h, (next_timer s <= h)%nat -> lookup (timers s) h = None
}.

(** *** Weakest preconditions of statements *)

Definition wp {X} (c : M X) (Q : X -> globals -> Prop) (s : globals) : Prop :=
  Q (fst (c s)) (snd (c s)).

(** *** Clock *)

(** The clock after [k] ticks from zero. *)
Fixpoint clock (k : nat) : num :=
  match k with
  | O => lit 0
  | S k' => clock k' + dt
  end.

(** *** Timeout

    A run on timer [h] from state [s] times out after [n] ticks: the first
    [n - 1] ticks leave it running, the [n]-th lowers [loop_active], cancels
    the timer and raises [finished]; no game-loop timer is live then, so no
    further tick runs; the Start/Stop button is disabled until Reset; and
    unless a countdown was pending, nothing but Reset changes the simulation
    state any more. *)
Definition times_out_after (n : nat) (s : globals) (h : nat) : Prop :=
  (forall k, (k < n)%nat ->
     exists sk, run NaN s (repeat (Fire h) k) = Some sk
       /\ loop_active sk = true /\ finished sk = finished s
       /\ t sk = clock k)
  /\ exists s', run NaN s (repeat (Fire h) n) = Some s'
       /\ t s' = clock n
       /\ loop_active s' = false /\ intervalId s' = None
       /\ finished s' = true
       /\ (forall h', timer_callback s' h' <> Some RunGameLoop)
       /\ run NaN s (repeat (Fire h) (S n)) = None
       /\ (forall es s'', ~ In ClickReset es -> run NaN s' es = Some s'' ->
              finished s'' = true /\ step NaN s'' ClickStartStop = None)
       /\ (countdownTimer s = None ->
           forall es s'', ~ In ClickReset es -> run NaN s' es = Some s'' ->
             loop_active s'' = false /\ simulation s'' = simulation s').

End Notions.

(** *** Waveform and time axis, in exact arithmetic *)

(** The triangle of the specification,
    [1 - 4 * |((t + 0.25 / f) * f / 2) mod 1 - 0.5|], the remainder modulo 1
    being the fractional part. *)
Definition triangle_formula (f time : R) : R :=
  (1 - 4 * Rabs (frac_part ((time + 0.25 / f) * f / 2) - 0.5))%R.

(** Consecutive points are the same distance apart. *)
Definition evenly_spaced (points : list R) : Prop :=
  forall i, (S (S i) < List.length points)%nat ->
    (nth (S (S i)) points 0 - nth (S i) points 0
     = nth (S i) points 0 - nth i points 0)%R.

(** Evaluation of statements on a state: the statement combinators, the
    assignments and the variables are unfolded, arithmetic is left alone. *)
Ltac evaluate :=
  cbv beta iota zeta delta
    [
     exec eval when bind get put ret fst snd channel1 channel2
     loop_active intervalId userInput game_mode target_function score
     countdown finished aborted t y1 y2 integral lastError
     countdownTimer watch_seen timers next_timer set_channel1
     set_channel2 set_loop_active set_intervalId set_userInput
     set_game_mode set_target_function set_score set_countdown
     set_finished set_aborted set_t set_y1 set_y2 set_integral
     set_lastError set_countdownTimer set_watch_seen set_timers
     set_next_timer
    ].

(** The variables of an explicit state, after assignments. *)
Ltac simpl_state :=
  cbv beta iota zeta delta
    [
     fst snd channel1 channel2 loop_active intervalId userInput
     game_mode target_function score countdown finished aborted t y1 y2
     integral lastError countdownTimer watch_seen timers next_timer
     set_channel1 set_channel2 set_loop_active set_intervalId
     set_userInput set_game_mode set_target_function set_score
     set_countdown set_finished set_aborted set_t set_y1 set_y2
     set_integral set_lastError set_countdownTimer set_watch_seen
     set_timers set_next_timer
    ].

Ltac simpl_state_all :=
  cbv beta iota zeta delta
    [
     fst snd channel1 channel2 loop_active intervalId userInput
     game_mode target_function score countdown finished aborted t y1 y2
     integral lastError countdownTimer watch_seen timers next_timer
     set_channel1 set_channel2 set_loop_active set_intervalId
     set_userInput set_game_mode set_target_function set_score
     set_countdown set_finished set_aborted set_t set_y1 set_y2
     set_integral set_lastError set_countdownTimer set_watch_seen
     set_timers set_next_timer
    ] in *.

Ltac split_ifs :=
  repeat match goal with
         | |- context [if ?b then _ else _] => destruct b eqn:?
         end.

Ltac unfold_handlers :=
  unfold gameLoop, targetFunction, controller, updateSystem, addValues,
         updateChart, startStop, countdownStep, reset, flush,
         watch_loop_active, setInterval, clearInterval in *.

(** ** Notions for the further properties *)

Section MoreNotions.

Context {num : Type} {A : Arith num}.

(** The button shows a countdown digit ([countdown > 0]) exactly while the
    countdown timer is pending. *)
Definition countdown_shown (s : globals_of num) : Prop :=
  match countdownTimer s with
  | Some _ => (1 <= countdown s <= 3)%Z
  | None => countdown s = (-1)%Z
  end.

(** The selections are among the options of the template and the slider is
    within its range. *)
Definition selections_offered (s : globals_of num) : Prop :=
  offered mode_options (game_mode s) = true
  /\ offered function_options (target_function s) = true
  /\ (-150 <= userInput s <= 150)%Z.

(** What the user has selected. *)
Definition selection (s : globals_of num) : Z * string * string :=
  (userInput s, game_mode s, target_function s).

(** The number of timer events among [es]. *)
Definition fired (es : list event) : nat :=
  List.length (filter (fun e => match e with Fire _ => true | _ => false end)
                      es).

End MoreNotions.

(** *** The triangle of the specification, in the arithmetic of the script *)

Section Expressions.
Context {num : Type} {A : Arith num}.
Local Open Scope js_scope.

(** The triangle of the specification for a frequency [f],
    [1 - 4 * |((t + 0.25 / f) * f / 2) mod 1 - 0.5|], in the arithmetic of
    the script. *)
Definition triangle_expression (f time : num) : num :=
  lit 1 - lit 4 * Math_abs (((((time + lit 0.25 / f) * f) / lit 2) %% lit 1)
                            - lit 0.5).
End Expressions.

(** *** The clock of a session *)

Section ClockWithin.
Context {num : Type} {A : Arith num}.
Local Open Scope js_scope.

(** The clock has ticked fewer than [limit] times; or exactly [limit] times,
    and the session is finished, with no countdown pending if a run is in
    progress; or once more, and nothing is in progress. *)
Definition clock_within (limit : nat) (s : globals_of num) : Prop :=
  exists k, t s = clock k
    /\ ((k < limit)%nat
        \/ (k = limit /\ finished s = true
            /\ (loop_active s = true -> countdownTimer s = None))
        \/ (k = S limit /\ finished s = true /\ loop_active s = false
            /\ countdownTimer s = None)).
End ClockWithin.

(** *** Binary64 values against the ideal *)

(** The rational value of a finite binary64 number (0 for the others), and
    the same as a real. *)
Definition B2Q (x : float) : Q :=
  match Prim2SF x with
  | S754_finite s m e =>
      let q := if (0 <=? e)%Z then inject_Z (Zpos m * 2 ^ e)
               else Qmake (Zpos m) (2 ^ Z.to_pos (- e)) in
      if s then Qopp q else q
  | _ => 0%Q
  end.

Definition B2R (x : float) : R := Q2R (B2Q x).

(** The real triangle and sawtooth at rational times, where they can be
    computed: [waveform (A := exact)] at [Q2R q] is [Q2R] of these (lemmas
    [triangle_Q_exact] and [sawtooth_Q_exact]). *)
Definition fracQ (x : Q) : Q := (x - inject_Z (Qfloor x))%Q.

Definition triangle_Q (q : Q) : Q :=
  (1 - 4 * Qabs (fracQ (q / 5 + (1 # 8)) - (1 # 2)))%Q.

Definition sawtooth_Q (q : Q) : Q :=
  (2 * fracQ (2 * q / 5 + (1 # 4)) - 1)%Q.

(** The time at which the [k]-th tick is due. *)
Definition due (k : nat) : Q := (inject_Z (Z.of_nat k) / 20)%Q.

(** Within [10^-13] of a rational. *)
Definition close_to (ideal : Q) (x : float) : bool :=
  Qle_bool (Qabs (B2Q x - ideal)) (1 # 10000000000000).

(** A binary64 number between two others. *)
Definition between (lo hi x : float) : bool :=
  PrimFloat.leb lo x && PrimFloat.leb x hi.
(** * Properties *)

(** ** The values of the constants *)

Section Constants.

Variable host_sin : float -> float.

Lemma dt_binary64 :
  @dt float (binary64_with host_sin) = 0x1.999999999999ap-5%float.
Proof. vm_compute. reflexivity. Qed.

Lemma dt_exact : @dt R exact = (5 / 100)%R.
Proof. cbv [dt loop_ms lit exact div Q2R Qnum Qden]. lra. Qed.

Lemma listSize_200 : listSize = 200%nat.
Proof. vm_compute. reflexivity. Qed.

End Constants.

(** The remainder of binary64 on values whose JavaScript results are known:
    [5.5 % 1], [-5.5 % 1], [0.3 % 0.1], [7 % Infinity]. *)
Example rem_binary64 :
  B64.rem 0x1.6p+2 1 = 0x1p-1%float
  /\ B64.rem (-0x1.6p+2) 1 = (-0x1p-1)%float
  /\ B64.rem (B64.lit 0.3) (B64.lit 0.1) = 0x1.9999999999998p-4%float
  /\ B64.rem 7 PrimFloat.infinity = 7%float.
Proof. vm_compute. repeat split. Qed.

(** ** Sequencing *)

Section Sequencing.

Context {num : Type}.

Lemma exec_seq {X Y} (c : @M num X) (k : @M num Y) (s : globals_of num) :
  exec (bind c (fun _ => k)) s = exec k (exec c s).
Proof. unfold exec, bind. destruct (c s). reflexivity. Qed.

End Sequencing.

(** ** Controller and plant *)

Section ControllerAndPlant.

Context {num : Type} {A : Arith num}.
Local Open Scope js_scope.

Lemma controller_unfold (target measured : num) (s : globals_of num) :
  controller target measured s =
  (fst (compute (controller_state s) target measured),
   set_lastError (cs_lastError (snd (compute (controller_state s) target measured)))
     (set_integral (cs_integral (snd (compute (controller_state s) target measured))) s)).
Proof. reflexivity. Qed.

Lemma updateSystem_unfold (u : num) (s : globals_of num) :
  updateSystem u s =
  (ps_y1 (PT2_step (plant_state s) u),
   set_y2 (ps_y2 (PT2_step (plant_state s) u))
     (set_y1 (ps_y1 (PT2_step (plant_state s) u)) s)).
Proof. reflexivity. Qed.

End ControllerAndPlant.

(** C5.  For every target and measured value, one invocation of [controller]
    computes [error = target - measured], adds [error * dt] to [integral]
    (nothing bounds it), takes [derivative = (error - lastError) / dt]
    against the error the previous invocation left, stores [error] in
    [lastError], and returns [3.28 * error + 3.38 * integral + 1.48 *
    derivative]; [integral] and [lastError] are each assigned once and no
    other variable changes.  A second invocation differentiates against the
    first one's error.  [dt] is 0.05, as a binary64 value and exactly. *)
Theorem controller_invocation :
  (forall num (A : Arith num) (s : globals_of num) (target measured : num),
      let error := (target - measured)%js in
      let integral' := (integral s + error * dt)%js in
      let derivative := ((error - lastError s) / dt)%js in
      controller target measured s =
      ((lit 3.28 * error + lit 3.38 * integral' + lit 1.48 * derivative)%js,
       set_lastError error (set_integral integral' s)))
  /\ (forall num (A : Arith num) (s : globals_of num) (r1 m1 r2 m2 : num),
         let e1 := (r1 - m1)%js in
         let e2 := (r2 - m2)%js in
         eval (controller r2 m2) (exec (controller r1 m1) s) =
         (lit 3.28 * e2 + lit 3.38 * (integral s + e1 * dt + e2 * dt)
          + lit 1.48 * ((e2 - e1) / dt))%js)
  /\ (forall host_sin : float -> float,
         @dt float (binary64_with host_sin) = 0x1.999999999999ap-5%float)
  /\ @dt R exact = (5 / 100)%R.
Proof.
  split; [ | split; [ | split ] ].
  - intros. apply controller_unfold.
  - intros. reflexivity.
  - exact dt_binary64.
  - exact dt_exact.
Qed.

(** The controller refines [compute] on the controller state. *)
Lemma controller_refines_compute {num} {A : Arith num}
      (s : globals_of num) (target measured : num) :
  eval (controller target measured) s
  = fst (compute (controller_state s) target measured)
  /\ controller_state (exec (controller target measured) s)
     = snd (compute (controller_state s) target measured).
Proof. split; reflexivity. Qed.

(** C6.  With [MODE = "PT2"], one call of [updateSystem u] sets [y1] to
    [y1 + dt * y2] with the old [y2], then [y2] to
    [y2 + dt * (wn * wn * (K * u - y1) - 2 * D * wn * y2)] with the new [y1],
    where [K = 1.0], [D = 0.5], [wn = 2.0], and returns the new [y1]; no
    other variable changes, and the next plant state is a function of the
    plant state and [u] alone. *)
Theorem updateSystem_PT2 :
  forall num (A : Arith num) (s : globals_of num) (u : num),
    let y1' := (y1 s + dt * y2 s)%js in
    let y2' :=
      (y2 s + dt * (lit 2.0 * lit 2.0 * (lit 1.0 * u - y1')
                    - lit 2 * lit 0.5 * lit 2.0 * y2 s))%js in
    MODE = "PT2"%string
    /\ updateSystem u s = (y1', set_y2 y2' (set_y1 y1' s))
    /\ plant_state (exec (updateSystem u) s) = PT2_step (plant_state s) u.
Proof. intros. repeat split. Qed.

(** Determinism of the plant step, spelled out. *)
Lemma updateSystem_deterministic {num} {A : Arith num}
      (s s' : globals_of num) (u : num) :
  plant_state s = plant_state s' ->
  eval (updateSystem u) s = eval (updateSystem u) s'
  /\ plant_state (exec (updateSystem u) s)
     = plant_state (exec (updateSystem u) s').
Proof.
  intros E. injection E as E1 E2.
  split.
  - unfold eval. rewrite !updateSystem_unfold. cbn. now rewrite E1, E2.
  - unfold exec. rewrite !updateSystem_unfold. cbn. now rewrite E1, E2.
Qed.

(** In exact arithmetic, from [y1 = 0], [y2 = 1] and [u = 0] the step gives
    [y1 = 0.05] and [y2 = 0.89]: the new [y1] enters the update of [y2]
    (the old one would give 0.9). *)
Example PT2_step_uses_new_y1 :
  PT2_step (A := exact) {| ps_y1 := 0%R; ps_y2 := 1%R |} 0%R
  = {| ps_y1 := (5 / 100)%R; ps_y2 := (89 / 100)%R |}.
Proof.
  unfold PT2_step. cbn [ps_y1 ps_y2]. rewrite dt_exact.
  cbv [lit exact add sub mul Q2R Qnum Qden]. f_equal; lra.
Qed.

(** ** Reasoning about statements *)

Section Statements.

Context {num : Type}.

Lemma wp_ret {X} (x : X) Q (s : globals_of num) : Q x s -> wp (ret x) Q s.
Proof. exact (fun H => H). Qed.

Lemma wp_bind {X Y} (c : M X) (k : X -> M Y) Q (s : globals_of num) :
  wp c (fun x s' => wp (k x) Q s') s -> wp (bind c k) Q s.
Proof. unfold wp, bind. destruct (c s). exact (fun H => H). Qed.

Lemma wp_get {X} (var : globals_of num -> X) Q s :
  Q (var s) s -> wp (get var) Q s.
Proof. exact (fun H => H). Qed.

Lemma wp_put {X} (set : X -> globals_of num -> globals_of num) v Q s :
  Q tt (set v s) -> wp (put set v) Q s.
Proof. exact (fun H => H). Qed.

Lemma wp_exec {X} (c : M X) (P : globals_of num -> Prop) s :
  wp c (fun _ s' => P s') s -> P (exec c s).
Proof. exact (fun H => H). Qed.

End Statements.

Section CalledFunctions.

Context {num : Type} {A : Arith num}.
Local Open Scope js_scope.

Lemma wp_targetFunction (time : num) Q (s : globals_of num) :
  Q (waveform (target_function s) time) s -> wp (targetFunction time) Q s.
Proof. exact (fun H => H). Qed.

Lemma wp_controller (target measured : num) Q (s : globals_of num) :
  (let error := target - measured in
   let integral' := integral s + error * dt in
   let derivative := (error - lastError s) / dt in
   Q (lit Kp * error + lit Ki * integral' + lit Kd * derivative)
     (set_lastError error (set_integral integral' s))) ->
  wp (controller target measured) Q s.
Proof. exact (fun H => H). Qed.

Lemma wp_updateSystem (u : num) Q (s : globals_of num) :
  (let y1' := y1 s + dt * y2 s in
   let y2' := y2 s + dt * (lit wn * lit wn * (lit K * u - y1')
                           - lit 2 * lit D * lit wn * y2 s) in
   Q y1' (set_y2 y2' (set_y1 y1' s))) ->
  wp (updateSystem u) Q s.
Proof. exact (fun H => H). Qed.

End CalledFunctions.

Ltac head_of c :=
  lazymatch c with
  | ?f _ => head_of f
  | _ => c
  end.

(** One step of symbolic execution of a statement. *)
Ltac wp_step :=
  lazymatch goal with
  | |- wp (bind _ _) _ _ => apply wp_bind
  | |- wp (ret _) _ _ => apply wp_ret
  | |- wp (get _) _ _ => apply wp_get
  | |- wp (put _ _) _ _ => apply wp_put
  | |- wp (when _ _) _ _ => unfold when
  | |- wp (targetFunction _) _ _ => apply wp_targetFunction
  | |- wp (controller _ _) _ _ => apply wp_controller
  | |- wp (updateSystem _) _ _ => apply wp_updateSystem
  | |- wp (if ?b then _ else _) _ _ => destruct b eqn:?
  | |- wp (match ?o with Some _ => _ | None => _ end) _ _ => destruct o eqn:?
  | |- wp (let (_, _) := ?p in _) _ _ => destruct p
  | |- wp ?c _ _ => let h := head_of c in unfold h
  end; simpl_state.

Ltac wp_run := repeat wp_step.

(** ** What each handler changes *)

Section Handlers.

Context {num : Type} {A : Arith num}.
Variable NaN : num.
Local Open Scope js_scope.

Abbreviation globals := (globals_of num).

Lemma addValues_channels (v1 v2 : num) (s : globals) :
  exec (addValues v1 v2) s
  = set_channel2 (pushed (channel2 s) v2)
      (set_channel1 (pushed (channel1 s) v1) s).
Proof.
  destruct s. unfold_handlers. unfold pushed. evaluate.
  split_ifs; reflexivity.
Qed.

(** [gameLoop] computes [tick]. *)
Lemma gameLoop_tick (s : globals) : exec gameLoop s = tick s.
Proof.
  apply wp_exec. destruct s.
  unfold tick, pushed, compute, PT2_step, controller_state, plant_state.
  cbv beta iota zeta delta [cs_integral cs_lastError ps_y1 ps_y2].
  simpl_state.
  wp_run; unfold addValues, updateChart; wp_run; reflexivity.
Qed.

End Handlers.

(** ** Timers *)

Section Timers.

Lemma lookup_cons (h0 : nat) (cb : callback) live (h : nat) :
  lookup ((h0, cb) :: live) h
  = if (h0 =? h)%nat then Some cb else lookup live h.
Proof. unfold lookup. cbn. destruct (h0 =? h)%nat; reflexivity. Qed.

Lemma lookup_cleared (h0 : nat) live (h : nat) :
  lookup (cleared h0 live) h
  = if (h =? h0)%nat then None else lookup live h.
Proof.
  unfold lookup, cleared.
  induction live as [ | [h1 cb] live IH ]; cbn.
  - now destruct (h =? h0)%nat.
  - destruct (h1 =? h0)%nat eqn:E10; cbn.
    + rewrite IH. destruct (h =? h0)%nat eqn:E; [ reflexivity | ].
      destruct (h1 =? h)%nat eqn:E1; [ | reflexivity ].
      apply Nat.eqb_eq in E10, E1. apply Nat.eqb_neq in E. congruence.
    + destruct (h1 =? h)%nat eqn:E1.
      * apply Nat.eqb_eq in E1. subst h1. now rewrite E10.
      * exact IH.
Qed.

End Timers.

(** ** The watcher *)

Section Watcher.

Context {num : Type} {A : Arith num}.

Lemma flush_seen (s : globals_of num) :
  watch_seen s = loop_active s -> exec flush s = s.
Proof.
  destruct s. simpl_state. intros ->. unfold flush. evaluate.
  rewrite Bool.eqb_reflx. reflexivity.
Qed.

Lemma flush_stopped (s : globals_of num) (h : nat) :
  loop_active s = false -> watch_seen s = true -> intervalId s = Some h ->
  exec flush s
  = set_aborted false
      ((if aborted s then (fun s' => s') else set_finished true)
         (set_intervalId None
            (set_timers (cleared h (timers s)) (set_watch_seen false s)))).
Proof.
  destruct s. simpl_state. intros -> -> ->. destruct aborted0; reflexivity.
Qed.

End Watcher.

(** ** Consistency is invariant *)

Section Consistency.

Context {num : Type} {A : Arith num}.
Variable NaN : num.

Ltac timers_facts h :=
  repeat match goal with
         | H : forall h', _ <-> _ |- _ => pose proof (H h); revert H
         | H : forall h', (_ <= h')%nat -> _ |- _ => pose proof (H h); revert H
         end;
  intros.

Ltac eqb_cases :=
  repeat match goal with
         | |- context [(?a =? ?b)%nat] =>
             let E := fresh "E" in
             destruct (a =? b)%nat eqn:E;
             [ apply Nat.eqb_eq in E; try subst a | apply Nat.eqb_neq in E ]
         end.

Ltac forward_chain :=
  repeat match goal with
         | H : _ <-> _ |- _ => destruct H
         | H : (?a <= ?b)%nat -> _ |- _ =>
             first [ let P := fresh in
                     assert (P : (a <= b)%nat) by lia; specialize (H P); clear P
                   | clear H ]
         | H : ?x = ?x -> _ |- _ => specialize (H eq_refl)
         | H : ?P -> _, H' : ?P |- _ => specialize (H H')
         end.

Ltac solve_timers :=
  let h := fresh "h" in
  intros h; intros;
  timers_facts h;
  rewrite ?lookup_cons, ?lookup_cleared in *;
  eqb_cases;
  try split; intros;
  forward_chain;
  solve [ congruence | lia | assumption | reflexivity ].

Ltac solve_consistent :=
  constructor; simpl_state;
  [ reflexivity | reflexivity | reflexivity | solve_timers .. ].

Lemma mounted_consistent : consistent (mounted NaN).
Proof.
  constructor; cbn; try reflexivity; intros;
    try (split; discriminate); reflexivity.
Qed.

Lemma step_consistent (s s' : globals_of num) (e : event) :
  consistent s -> step NaN s e = Some s' -> consistent s'.
Proof.
  intros H.
  destruct s; destruct H as [Ha Hs Hl Hi Hc Hf]; simpl_state_all; subst.
  destruct e; unfold step; simpl_state.
  - (* Start/Stop *)
    destruct finished0; [ discriminate | ]. intros [= <-].
    unfold startStop, flush, watch_loop_active, setInterval, clearInterval.
    destruct intervalId0 as [h | ]; evaluate.
    + cbn [Bool.eqb negb]. solve_consistent.
    + destruct (equal game_mode0 "closedL-auto"); evaluate.
      * cbn [Bool.eqb negb]. solve_consistent.
      * destruct countdownTimer0 as [c | ]; evaluate; cbn [Bool.eqb negb];
          solve_consistent.
  - (* Reset *)
    intros [= <-].
    unfold reset, updateChart, flush, watch_loop_active, clearInterval.
    destruct intervalId0 as [h | ]; evaluate; cbn [Bool.eqb negb];
      solve_consistent.
  - (* Slider *)
    destruct (equal game_mode0 "closedL-auto"); [ discriminate | ].
    destruct (_ && _); [ | discriminate ]. intros [= <-].
    unfold flush. destruct intervalId0 as [h | ]; evaluate;
      cbn [Bool.eqb negb]; solve_consistent.
  - (* Mode *)
    destruct intervalId0 as [h | ]; [ discriminate | ].
    destruct (offered _ _); [ | discriminate ]. intros [= <-].
    unfold flush. evaluate. cbn [Bool.eqb negb]. solve_consistent.
  - (* Function *)
    destruct (_ || _); [ discriminate | ].
    destruct (offered _ _); [ | discriminate ]. intros [= <-].
    unfold flush. destruct intervalId0 as [h | ]; evaluate;
      cbn [Bool.eqb negb]; solve_consistent.
  - (* A timer fires *)
    unfold timer_callback. simpl_state.
    destruct (lookup timers0 handle) as [ [ | ] | ] eqn:L; [ | | discriminate ];
      intros [= <-].
    + (* the game loop *)
      apply Hi in L. subst intervalId0.
      rewrite exec_seq, gameLoop_tick.
      unfold tick, flush, watch_loop_active, clearInterval. simpl_state.
      destruct (geb _ _); evaluate; cbn [Bool.eqb negb]; solve_consistent.
    + (* the countdown *)
      apply Hc in L. subst countdownTimer0.
      unfold countdownStep, flush, watch_loop_active, setInterval,
             clearInterval.
      evaluate. destruct (_ <=? _)%Z; evaluate;
        destruct intervalId0 as [h | ]; evaluate; cbn [Bool.eqb negb];
        solve_consistent.
Qed.

Lemma reachable_consistent (s : globals_of num) :
  reachable NaN s -> consistent s.
Proof.
  induction 1 as [ | s e s' _ IH Hstep ].
  - apply mounted_consistent.
  - eapply step_consistent; eassumption.
Qed.

End Consistency.

(** ** The handlers and the simulation state *)

Section Frames.

Context {num : Type} {A : Arith num}.
Variable NaN : num.
Local Open Scope js_scope.

Lemma simulation_score (a b : globals_of num) :
  simulation a = simulation b -> score a = score b.
Proof. intros E. exact (f_equal (fun x => snd (fst x)) E). Qed.

Lemma simulation_channels (a b : globals_of num) :
  simulation a = simulation b ->
  channel1 a = channel1 b /\ channel2 a = channel2 b.
Proof.
  intros E. split.
  - exact (f_equal (fun x => fst (snd x)) E).
  - exact (f_equal (fun x => snd (snd x)) E).
Qed.

Lemma simulation_t (a b : globals_of num) :
  simulation a = simulation b -> t a = t b.
Proof. intros E. exact (f_equal (fun x => fst (fst (fst (fst x)))) E). Qed.

Lemma flush_simulation (s : globals_of num) :
  simulation (exec flush s) = simulation s.
Proof.
  apply (wp_exec flush (fun s' => simulation s' = simulation s)).
  destruct s. unfold simulation. wp_run; reflexivity.
Qed.

Lemma tick_simulation (s : globals_of num) :
  simulation (exec (bind gameLoop (fun _ => flush)) s) = simulation (tick s).
Proof. now rewrite exec_seq, flush_simulation, gameLoop_tick. Qed.

Lemma startStop_simulation (s : globals_of num) :
  simulation (exec startStop s) = simulation s.
Proof.
  apply (wp_exec startStop (fun s' => simulation s' = simulation s)).
  destruct s. unfold simulation. wp_run; reflexivity.
Qed.

Lemma countdownStep_simulation (s : globals_of num) :
  simulation (exec countdownStep s) = simulation s.
Proof.
  apply (wp_exec countdownStep (fun s' => simulation s' = simulation s)).
  destruct s. unfold simulation. wp_run; reflexivity.
Qed.

(** What [reset] leaves in the simulation state. *)
Lemma reset_simulation (s : globals_of num) :
  simulation (exec (reset NaN) s)
  = (lit 0, (lit 0, lit 0), (lit 0, lit 0), 0%Z, (blank NaN, blank NaN)).
Proof.
  apply (wp_exec (reset NaN) (fun s' => simulation s' = _)).
  destruct s. unfold simulation. wp_run; reflexivity.
Qed.

Lemma quiet_step_simulation (s s' : globals_of num) (e : event) :
  step NaN s e = Some s' -> quiet s e = true -> simulation s' = simulation s.
Proof.
  destruct e; unfold step, quiet.
  - destruct (finished s); [ discriminate | ]. intros [= <-] _.
    rewrite exec_seq, flush_simulation. apply startStop_simulation.
  - discriminate.
  - destruct (equal _ _); [ discriminate | ].
    destruct (_ && _); [ | discriminate ]. intros [= <-] _.
    rewrite exec_seq, flush_simulation. now destruct s.
  - destruct (loop_active s); [ discriminate | ].
    destruct (offered _ _); [ | discriminate ]. intros [= <-] _.
    rewrite exec_seq, flush_simulation. now destruct s.
  - destruct (_ || _); [ discriminate | ].
    destruct (offered _ _); [ | discriminate ]. intros [= <-] _.
    rewrite exec_seq, flush_simulation. now destruct s.
  - destruct (timer_callback s handle) as [ [ | ] | ]; try discriminate.
    intros [= <-] _.
    rewrite exec_seq, flush_simulation. apply countdownStep_simulation.
Qed.

(** *** [finished] is lowered by Reset alone *)

Lemma flush_finished (s : globals_of num) :
  finished s = true -> finished (exec flush s) = true.
Proof.
  apply (wp_exec flush (fun s' => finished s = true -> finished s' = true)).
  destruct s. simpl_state. wp_run; intros; (assumption || reflexivity).
Qed.

Lemma step_finished (s s' : globals_of num) (e : event) :
  step NaN s e = Some s' -> e <> ClickReset ->
  finished s = true -> finished s' = true.
Proof.
  destruct e; unfold step; intros Hstep Hne Hfin.
  - rewrite Hfin in Hstep. discriminate.
  - congruence.
  - destruct (equal _ _); [ discriminate | ].
    destruct (_ && _); [ | discriminate ]. injection Hstep as <-.
    rewrite exec_seq. apply flush_finished. now destruct s.
  - destruct (loop_active s); [ discriminate | ].
    destruct (offered _ _); [ | discriminate ]. injection Hstep as <-.
    rewrite exec_seq. apply flush_finished. now destruct s.
  - destruct (_ || _); [ discriminate | ].
    destruct (offered _ _); [ | discriminate ]. injection Hstep as <-.
    rewrite exec_seq. apply flush_finished. now destruct s.
  - destruct (timer_callback s handle) as [ [ | ] | ]; try discriminate;
      injection Hstep as <-; rewrite exec_seq; apply flush_finished.
    + rewrite gameLoop_tick. exact Hfin.
    + apply (wp_exec countdownStep (fun s' => finished s' = true)).
      destruct s. simpl_state_all. wp_run; assumption.
Qed.

Lemma run_finished (es : list event) (s s' : globals_of num) :
  run NaN s es = Some s' -> ~ In ClickReset es ->
  finished s = true -> finished s' = true.
Proof.
  revert s. induction es as [ | e es IH ]; cbn; intros s Hrun Hnot Hfin.
  - congruence.
  - destruct (step NaN s e) as [ s1 | ] eqn:Hstep; [ | discriminate ].
    apply (IH s1 Hrun).
    + intros Hin. apply Hnot. now right.
    + apply (step_finished _ Hstep); [ | exact Hfin ].
      intros ->. apply Hnot. now left.
Qed.

(** *** Reachability of the states [after] names *)

Lemma after_reachable (es : list event) : reachable NaN (after NaN es).
Proof.
  unfold after.
  assert (G : forall s, reachable NaN s ->
                        reachable NaN
                          (fold_left
                             (fun s e => match step NaN s e with
                                         | Some s' => s'
                                         | None => s
                                         end) es s)).
  { induction es as [ | e es IH ]; cbn; intros s Hs; [ exact Hs | ].
    apply IH. destruct (step NaN s e) as [ s1 | ] eqn:Hstep; [ | exact Hs ].
    exact (reachable_step e Hs Hstep). }
  apply G. constructor.
Qed.

End Frames.

(** ** Stop, Reset and resumption (claims C1, C2, C10) *)

Section StopAndReset.

Context {num : Type} {A : Arith num}.
Variable NaN : num.

(** What the Start/Stop button does to a run in progress. *)
Lemma stop_pressed (s s' : globals_of num) :
  consistent s -> loop_active s = true ->
  step NaN s ClickStartStop = Some s' ->
  loop_active s' = false /\ intervalId s' = None
  /\ (forall h, timer_callback s' h <> Some RunGameLoop)
  /\ aborted s' = false /\ finished s' = true
  /\ step NaN s' ClickStartStop = None.
Proof.
  intros H Hactive.
  destruct s; destruct H as [Ha Hs Hl Hi Hc Hf]; simpl_state_all; subst.
  destruct intervalId0 as [h | ]; [ clear Hactive | discriminate ].
  unfold step. simpl_state.
  destruct finished0; [ discriminate | ]. intros [= <-].
  unfold startStop, flush, watch_loop_active, clearInterval. evaluate.
  cbn [Bool.eqb negb]. unfold timer_callback. simpl_state.
  repeat split.
  intros h'. rewrite lookup_cleared.
  destruct (h' =? h)%nat eqn:E; [ discriminate | ].
  intros L. apply Hi in L. injection L as ->.
  now rewrite Nat.eqb_refl in E.
Qed.

End StopAndReset.

(** C1 (as stated, refuted).  In the mode that starts without a countdown,
    one press of Start/Stop starts the run and a second press stops it:
    after the second press [finished] is up and the button is disabled. *)
Lemma stop_button_sets_finished :
  let NaN := PrimFloat.nan in
  let s := after (A := binary64) NaN
                 [SelectMode "closedL-auto"; ClickStartStop] in
  let s' := after (A := binary64) NaN
                  [SelectMode "closedL-auto"; ClickStartStop; ClickStartStop] in
  run (A := binary64) NaN (mounted (A := binary64) NaN)
      [SelectMode "closedL-auto"; ClickStartStop] = Some s
  /\ loop_active s = true /\ finished s = false
  /\ step (A := binary64) NaN s ClickStartStop = Some s'
  /\ loop_active s' = false /\ finished s' = true
  /\ step (A := binary64) NaN s' ClickStartStop = None.
Proof. vm_compute. repeat split. Qed.

(** C1 (amended).  A press of Start/Stop while the run loop is active
    lowers [loop_active], cancels the game-loop timer and, [aborted] being
    down, raises [finished]: the button is disabled from then on, through
    any events, until Reset; the simulation state is untouched. *)
Theorem user_stop_finishes :
  forall num (A : Arith num) (NaN : num) (s s' : globals_of num),
    reachable NaN s -> loop_active s = true ->
    step NaN s ClickStartStop = Some s' ->
    loop_active s' = false /\ intervalId s' = None
    /\ (forall h, timer_callback s' h <> Some RunGameLoop)
    /\ aborted s' = false /\ finished s' = true
    /\ step NaN s' ClickStartStop = None
    /\ simulation s' = simulation s
    /\ (forall es s'', ~ In ClickReset es -> run NaN s' es = Some s'' ->
                       finished s'' = true
                       /\ step NaN s'' ClickStartStop = None).
Proof.
  intros num A NaN s s' Hreach Hactive Hstep.
  pose proof (stop_pressed NaN (reachable_consistent Hreach) Hactive Hstep)
    as (H1 & H2 & H3 & H4 & H5 & H6).
  repeat (split; [ assumption | ]).
  split.
  - apply (quiet_step_simulation NaN s ClickStartStop Hstep). reflexivity.
  - intros es s'' Hnot Hrun.
    pose proof (run_finished NaN es s' Hrun Hnot H5) as Hfin.
    split; [ exact Hfin | ]. unfold step. now rewrite Hfin.
Qed.

Lemma user_stop_finishes_witness :
  let NaN := PrimFloat.nan in
  let s := after (A := binary64) NaN
                 [SelectMode "closedL-auto"; ClickStartStop] in
  let s' := after (A := binary64) NaN
                  [SelectMode "closedL-auto"; ClickStartStop; ClickStartStop] in
  loop_active s' = false /\ intervalId s' = None
  /\ (forall h, timer_callback s' h <> Some RunGameLoop)
  /\ aborted s' = false /\ finished s' = true
  /\ step (A := binary64) NaN s' ClickStartStop = None
  /\ simulation s' = simulation s
  /\ (forall es s'', ~ In ClickReset es ->
                     run (A := binary64) NaN s' es = Some s'' ->
                     finished s'' = true
                     /\ step (A := binary64) NaN s'' ClickStartStop = None).
Proof.
  intros NaN s s'.
  apply (@user_stop_finishes float binary64 NaN s s').
  - apply after_reachable.
  - vm_compute. reflexivity.
  - vm_compute. reflexivity.
Defined.

Section ResetAndResume.

Context {num : Type} {A : Arith num}.
Variable NaN : num.

(** What Reset does, whatever the state. *)
Lemma reset_pressed (s : globals_of num) :
  consistent s ->
  exists s', step NaN s ClickReset = Some s'
    /\ loop_active s' = false /\ intervalId s' = None
    /\ (forall h, timer_callback s' h <> Some RunGameLoop)
    /\ aborted s' = false /\ finished s' = false
    /\ userInput s' = 0%Z
    /\ simulation s'
       = (lit 0, (lit 0, lit 0), (lit 0, lit 0), 0%Z, (blank NaN, blank NaN))
    /\ countdownTimer s' = countdownTimer s /\ countdown s' = countdown s.
Proof.
  intros H. eexists. split; [ reflexivity | ].
  destruct s; destruct H as [Ha Hs Hl Hi Hc Hf]; simpl_state_all; subst.
  unfold reset, updateChart, flush, watch_loop_active, clearInterval,
         timer_callback, simulation.
  destruct intervalId0 as [h | ]; evaluate; cbn [Bool.eqb negb];
    repeat split; intros h'.
  - rewrite lookup_cleared.
    destruct (h' =? h)%nat eqn:E; [ discriminate | ].
    intros L. apply Hi in L. injection L as ->.
    now rewrite Nat.eqb_refl in E.
  - intros L. apply Hi in L. discriminate.
Qed.

(** With no run and no countdown in progress nothing happens until
    Start/Stop is pressed. *)
Lemma idle_step (s s' : globals_of num) (e : event) :
  consistent s -> loop_active s = false -> countdownTimer s = None ->
  e <> ClickStartStop -> step NaN s e = Some s' ->
  loop_active s' = false /\ countdownTimer s' = None.
Proof.
  intros H Hidle Hnone Hne.
  destruct s; destruct H as [Ha Hs Hl Hi Hc Hf]; simpl_state_all; subst.
  destruct intervalId0 as [h | ]; [ discriminate | ].
  destruct e; unfold step; simpl_state.
  - congruence.
  - intros [= <-]. unfold reset, updateChart, flush. evaluate. now split.
  - destruct (equal _ _); [ discriminate | ].
    destruct (_ && _); [ | discriminate ]. intros [= <-]. now split.
  - destruct (offered _ _); [ | discriminate ]. intros [= <-]. now split.
  - destruct (_ || _); [ discriminate | ].
    destruct (offered _ _); [ | discriminate ]. intros [= <-]. now split.
  - unfold timer_callback. simpl_state.
    destruct (lookup timers0 handle) as [ [ | ] | ] eqn:L; try discriminate.
    + apply Hi in L. discriminate.
    + apply Hc in L. discriminate.
Qed.

Lemma idle_run (es : list event) (s s' : globals_of num) :
  consistent s -> loop_active s = false -> countdownTimer s = None ->
  ~ In ClickStartStop es -> run NaN s es = Some s' ->
  loop_active s' = false /\ countdownTimer s' = None.
Proof.
  revert s. induction es as [ | e es IH ]; cbn; intros s H Hidle Hnone Hnot.
  - intros [= <-]. now split.
  - destruct (step NaN s e) as [ s1 | ] eqn:Hstep; [ | discriminate ].
    assert (Hne : e <> ClickStartStop) by (intros ->; apply Hnot; now left).
    assert (G : loop_active s1 = false /\ countdownTimer s1 = None).
    { eapply idle_step;
        [ exact H | exact Hidle | exact Hnone | exact Hne | exact Hstep ]. }
    destruct G as [H1 H2].
    apply IH; try assumption.
    + eapply step_consistent; eassumption.
    + intros Hin. apply Hnot. now right.
Qed.

(** Reset outside a countdown: everything is zeroed and the session stays
    idle until Start/Stop is pressed. *)
Lemma reset_outside_countdown (s : globals_of num) :
  reachable NaN s -> countdownTimer s = None ->
  exists s', step NaN s ClickReset = Some s'
    /\ loop_active s' = false /\ finished s' = false
    /\ userInput s' = 0%Z
    /\ simulation s'
       = (lit 0, (lit 0, lit 0), (lit 0, lit 0), 0%Z, (blank NaN, blank NaN))
    /\ (forall es s'', ~ In ClickStartStop es ->
                       run NaN s' es = Some s'' -> loop_active s'' = false).
Proof.
  intros Hreach Hnone.
  pose proof (reachable_consistent Hreach) as H.
  destruct (reset_pressed H)
    as (s' & Hstep & H1 & H2 & H3 & H4 & H5 & H6 & H7 & H8 & H9).
  exists s'. repeat (split; [ assumption | ]).
  intros es s'' Hnot Hrun.
  assert (H' : consistent s') by (eapply step_consistent; eassumption).
  assert (G : loop_active s'' = false /\ countdownTimer s'' = None).
  { eapply idle_run;
      [ exact H' | exact H1 | congruence | exact Hnot | exact Hrun ]. }
  exact (proj1 G).
Qed.

Lemma quiet_run_simulation (es : list event) (s s' : globals_of num) :
  all_quiet NaN s es = true -> run NaN s es = Some s' ->
  simulation s' = simulation s.
Proof.
  revert s. induction es as [ | e es IH ]; cbn; intros s Hq Hrun.
  - congruence.
  - destruct (step NaN s e) as [ s1 | ] eqn:Hstep; [ | discriminate ].
    apply andb_prop in Hq as [Hq1 Hq2].
    rewrite (IH s1 Hq2 Hrun).
    eapply quiet_step_simulation; eassumption.
Qed.

End ResetAndResume.

(** C2 (the code at the failing input).  Start/Stop is pressed in the
    default mode, so the countdown runs on timer 1; Reset is pressed.  The
    countdown timer is still live and [countdown] still 3; when the timer
    has fired three times [loop_active] is up and the game-loop timer is
    live, with no press of Start/Stop since the Reset. *)
Lemma reset_leaves_countdown_running :
  let NaN := PrimFloat.nan in
  let counting := after (A := binary64) NaN [ClickStartStop] in
  let s := after (A := binary64) NaN [ClickStartStop; ClickReset] in
  let s' := after (A := binary64) NaN
                  [ClickStartStop; ClickReset; Fire 1; Fire 1; Fire 1] in
  run (A := binary64) NaN (mounted (A := binary64) NaN) [ClickStartStop]
  = Some counting
  /\ (countdown counting = 3%Z /\ countdownTimer counting = Some 1%nat
      /\ loop_active counting = false)
  /\ step (A := binary64) NaN counting ClickReset = Some s
  /\ (loop_active s = false /\ finished s = false
      /\ countdown s = 3%Z /\ countdownTimer s = Some 1%nat
      /\ timer_callback s 1 = Some CountdownTick)
  /\ run (A := binary64) NaN s [Fire 1; Fire 1; Fire 1] = Some s'
  /\ loop_active s' = true
  /\ timer_callback s' 2 = Some RunGameLoop.
Proof. vm_compute. repeat split. Qed.

(** C10.  A press of Start/Stop, be it a stop or a start, the watcher that
    ends a run after the timeout tick, and every event other than Reset and
    a tick leave the clock, the plant state, the controller state, the score
    and both series as they are; so after any such events the next tick
    continues from the clock of the stop.  Reset alone zeroes them. *)
Theorem stop_keeps_simulation :
  forall num (A : Arith num) (NaN : num),
    (forall s : globals_of num,
        simulation (exec (bind startStop (fun _ => flush)) s) = simulation s)
    /\ (forall s : globals_of num,
           simulation (exec (bind gameLoop (fun _ => flush)) s)
           = simulation (exec gameLoop s))
    /\ (forall (s s' : globals_of num) es,
           all_quiet NaN s es = true -> run NaN s es = Some s' ->
           simulation s' = simulation s
           /\ t (exec gameLoop s') = (t s + dt)%js)
    /\ (forall s : globals_of num,
           simulation (exec (bind (reset NaN) (fun _ => flush)) s)
           = (lit 0, (lit 0, lit 0), (lit 0, lit 0), 0%Z,
              (blank NaN, blank NaN))).
Proof.
  intros num A NaN. repeat split.
  - intros s. rewrite exec_seq, flush_simulation.
    apply startStop_simulation.
  - intros s. rewrite exec_seq. apply flush_simulation.
  - eapply quiet_run_simulation; eassumption.
  - rewrite gameLoop_tick. cbn.
    assert (E : simulation s' = simulation s)
      by (eapply quiet_run_simulation; eassumption).
    unfold simulation in E. now injection E as -> _ _ _ _ _ _ _.
  - intros s. rewrite exec_seq, flush_simulation. apply reset_simulation.
Qed.

(** The countdown of the default mode is running when the mode is switched
    to the one without countdown and Start/Stop pressed: the run starts, is
    stopped after two ticks, and is started again by the countdown reaching
    zero.  The resumed run finds the simulation state of the stop. *)
Lemma stop_keeps_simulation_witness :
  let NaN := PrimFloat.nan in
  let stopped :=
    after (A := binary64) NaN
          [ClickStartStop; SelectMode "closedL-auto"; ClickStartStop;
           Fire 2; Fire 2; ClickStartStop] in
  let resumed :=
    after (A := binary64) NaN
          [ClickStartStop; SelectMode "closedL-auto"; ClickStartStop;
           Fire 2; Fire 2; ClickStartStop; Fire 1; Fire 1; Fire 1] in
  (loop_active stopped = false /\ loop_active resumed = true)
  /\ simulation resumed = simulation stopped
  /\ t (exec (@gameLoop float binary64) resumed)
     = PrimFloat.add (t stopped) (@dt float binary64).
Proof.
  intros NaN stopped resumed.
  split; [ vm_compute; split; reflexivity | ].
  apply (proj1 (proj2 (proj2 (@stop_keeps_simulation float binary64 NaN)))
           stopped resumed [Fire 1; Fire 1; Fire 1]).
  - vm_compute. reflexivity.
  - vm_compute. reflexivity.
Defined.

(** ** The rolling buffer (claim C7) *)

Section RollingBuffer.

Context {num : Type} {A : Arith num}.
Variable NaN : num.

Lemma pushed_full (series : list num) (v : num) :
  List.length series = listSize -> pushed series v = tl (series ++ [v]).
Proof.
  intros E. unfold pushed. rewrite length_app, E. cbn [List.length].
  replace (listSize <? listSize + 1)%nat with true; [ reflexivity | ].
  symmetry. apply Nat.ltb_lt. lia.
Qed.

Lemma pushed_length (series : list num) (v : num) :
  List.length series = listSize -> List.length (pushed series v) = listSize.
Proof.
  intros E. rewrite pushed_full by exact E.
  destruct series as [ | x series ]; cbn in *; [ exact E | ].
  rewrite length_app. cbn. lia.
Qed.

Lemma last_pushed (series : list num) (v d : num) :
  last (pushed series v) d = v.
Proof.
  unfold pushed.
  destruct (listSize <? List.length (series ++ [v]))%nat eqn:E.
  - destruct series as [ | x series ].
    + cbn in E. rewrite listSize_200 in E. discriminate.
    + cbn [app tl]. apply last_last.
  - apply last_last.
Qed.

Lemma blank_length : List.length (blank NaN) = listSize.
Proof. apply repeat_length. Qed.

Lemma appends_channels (vs : list (num * num)) (s : globals_of num) :
  List.length (channel1 s) = listSize ->
  List.length (channel2 s) = listSize ->
  channel1 (appends vs s)
  = skipn (List.length vs) (channel1 s ++ map fst vs)
  /\ channel2 (appends vs s)
     = skipn (List.length vs) (channel2 s ++ map snd vs).
Proof.
  revert s. induction vs as [ | [v1 v2] vs IH ]; intros s E1 E2.
  - cbn. now rewrite !app_nil_r.
  - change (appends ((v1, v2) :: vs) s)
      with (appends vs (exec (addValues v1 v2) s)).
    assert (tail_app : forall (l r : list num) (v : num),
               tl (l ++ [v]) ++ r = tl (l ++ v :: r)).
    { intros l r v. destruct l; cbn; [ reflexivity | ].
      now rewrite <- app_assoc. }
    assert (C1 : channel1 (exec (addValues v1 v2) s) = pushed (channel1 s) v1)
      by (rewrite addValues_channels; now destruct s).
    assert (C2 : channel2 (exec (addValues v1 v2) s) = pushed (channel2 s) v2)
      by (rewrite addValues_channels; now destruct s).
    destruct (IH (exec (addValues v1 v2) s)) as [IH1 IH2].
    + rewrite C1. now apply pushed_length.
    + rewrite C2. now apply pushed_length.
    + rewrite IH1, IH2, C1, C2.
      rewrite !pushed_full by assumption. rewrite !tail_app.
      cbn [List.length map fst snd]. split.
      * destruct (channel1 s ++ v1 :: map fst vs); cbn [tl];
          [ now rewrite skipn_nil | reflexivity ].
      * destruct (channel2 s ++ v2 :: map snd vs); cbn [tl];
          [ now rewrite skipn_nil | reflexivity ].
Qed.

Lemma appends_from_blank (vs : list (num * num)) (s : globals_of num) (k : nat) :
  channel1 s = blank NaN -> channel2 s = blank NaN ->
  List.length vs = (listSize + k)%nat ->
  channel1 (appends vs s) = skipn k (map fst vs)
  /\ channel2 (appends vs s) = skipn k (map snd vs).
Proof.
  intros E1 E2 L.
  assert (L1 : List.length (channel1 s) = listSize)
    by (rewrite E1; apply blank_length).
  assert (L2 : List.length (channel2 s) = listSize)
    by (rewrite E2; apply blank_length).
  destruct (appends_channels vs s L1 L2) as [H1 H2].
  rewrite H1, H2, E1, E2, !skipn_app, blank_length, L.
  rewrite !skipn_all2 by (rewrite blank_length; lia).
  replace (listSize + k - listSize)%nat with k by lia.
  now split.
Qed.

Lemma reset_channels (s : globals_of num) :
  channel1 (exec (reset NaN) s) = blank NaN
  /\ channel2 (exec (reset NaN) s) = blank NaN.
Proof.
  pose proof (reset_simulation NaN s) as E. unfold simulation in E.
  injection E as _ _ _ _ _ _ E1 E2. now split.
Qed.

Lemma step_lengths (s s' : globals_of num) (e : event) :
  step NaN s e = Some s' ->
  List.length (channel1 s) = listSize /\ List.length (channel2 s) = listSize ->
  List.length (channel1 s') = listSize /\ List.length (channel2 s') = listSize.
Proof.
  intros Hstep [E1 E2].
  destruct (quiet s e) eqn:Q.
  - assert (E : simulation s' = simulation s)
      by (eapply quiet_step_simulation; eassumption).
    unfold simulation in E. injection E as _ _ _ _ _ _ -> ->. now split.
  - destruct e; try discriminate; unfold step in Hstep.
    + injection Hstep as <-.
      assert (E : simulation (exec (bind (reset NaN) (fun _ => flush)) s)
                  = simulation (exec (reset NaN) s))
        by (rewrite exec_seq; apply flush_simulation).
      unfold simulation in E. injection E as _ _ _ _ _ _ -> ->.
      destruct (reset_channels s) as [-> ->]. split; apply blank_length.
    + unfold quiet in Q.
      destruct (timer_callback s handle) as [ [ | ] | ]; try discriminate.
      injection Hstep as <-.
      destruct (simulation_channels (tick_simulation s)) as [-> ->].
      unfold tick. simpl_state. split; now apply pushed_length.
Qed.

Lemma reachable_lengths (s : globals_of num) :
  reachable NaN s ->
  List.length (channel1 s) = listSize /\ List.length (channel2 s) = listSize.
Proof.
  induction 1 as [ | s e s' _ IH Hstep ].
  - split; apply blank_length.
  - eapply step_lengths; eassumption.
Qed.

End RollingBuffer.

(** C7.  The capacity is 200.  In every reachable state both series have
    the same length, which does not exceed the capacity.  After [reset],
    [N + k] appends leave in each series the last [N] appended values in
    order, and the series keep length [N] throughout.  [reset] makes both
    series [N] copies of the sentinel. *)
Theorem rolling_buffer :
  forall num (A : Arith num) (NaN : num),
    listSize = 200%nat
    /\ (forall s : globals_of num,
           reachable NaN s ->
           List.length (channel1 s) = List.length (channel2 s)
           /\ (List.length (channel1 s) <= listSize)%nat)
    /\ (forall (s : globals_of num) vs k,
           List.length vs = (listSize + k)%nat ->
           channel1 (appends vs (exec (reset NaN) s)) = skipn k (map fst vs)
           /\ channel2 (appends vs (exec (reset NaN) s)) = skipn k (map snd vs))
    /\ (forall (s : globals_of num) vs,
           List.length (channel1 (appends vs (exec (reset NaN) s))) = listSize
           /\ List.length (channel2 (appends vs (exec (reset NaN) s)))
              = listSize)
    /\ (forall s : globals_of num,
           channel1 (exec (reset NaN) s) = repeat NaN listSize
           /\ channel2 (exec (reset NaN) s) = repeat NaN listSize
           /\ List.length (repeat NaN listSize) = listSize).
Proof.
  intros num A NaN.
  split; [ exact listSize_200 | ].
  split; [ | split; [ | split ] ].
  - intros s Hreach. destruct (reachable_lengths Hreach) as [E1 E2].
    rewrite E1, E2. split; [ reflexivity | apply Nat.le_refl ].
  - intros s vs k L.
    destruct (reset_channels NaN s) as [E1 E2].
    eapply appends_from_blank; eassumption.
  - intros s vs.
    destruct (reset_channels NaN s) as [E1 E2].
    assert (L1 : List.length (channel1 (exec (reset NaN) s)) = listSize)
      by (rewrite E1; apply blank_length).
    assert (L2 : List.length (channel2 (exec (reset NaN) s)) = listSize)
      by (rewrite E2; apply blank_length).
    destruct (appends_channels vs _ L1 L2) as [H1 H2].
    rewrite H1, H2, !length_skipn, !length_app, !length_map, L1, L2.
    split; lia.
  - intros s. destruct (reset_channels NaN s) as [E1 E2].
    repeat split; assumption || apply repeat_length.
Qed.

(** 203 appends after a reset: the first three values are gone. *)
Lemma rolling_buffer_witness :
  let NaN := PrimFloat.nan in
  let vs := map (fun i => (B64.of_Z (Z.of_nat i), B64.of_Z (- Z.of_nat i)))
                (seq 0 203) in
  let s := appends vs (exec (@reset float binary64 NaN)
                            (@mounted float binary64 NaN)) in
  channel1 s = skipn 3 (map fst vs) /\ channel2 s = skipn 3 (map snd vs).
Proof.
  intros NaN vs s.
  apply (proj1 (proj2 (proj2 (@rolling_buffer float binary64 NaN)))
           (@mounted float binary64 NaN) vs 3%nat).
  vm_compute. reflexivity.
Defined.

(** ** The score (claim C9) *)

Section Score.

Context {num : Type} {A : Arith num}.
Variable NaN : num.
Local Open Scope js_scope.

(** The score after a tick, read off the values the tick appended. *)
Lemma tick_score (s : globals_of num) (d : num) :
  score (tick s)
  = if scoring (game_mode s) then
      if Math_abs (last (channel1 (tick s)) d - last (channel2 (tick s)) d)
         <? lit margin
      then (score s + 1)%Z else score s
    else score s.
Proof.
  unfold tick, scoring. simpl_state. now rewrite !last_pushed.
Qed.

Lemma tick_output (s : globals_of num) (d : num) :
  last (channel2 (tick s)) d = y1 (tick s).
Proof. unfold tick. simpl_state. apply last_pushed. Qed.

(** In the scoring modes the target of a tick is the waveform at the clock
    the tick started from. *)
Lemma tick_target (s : globals_of num) (d : num) :
  scoring (game_mode s) = true ->
  last (channel1 (tick s)) d = waveform (target_function s) (t s).
Proof.
  unfold tick, scoring, equal. simpl_state. rewrite last_pushed.
  intros H. apply orb_prop in H as [H | H]; apply String.eqb_eq in H;
    rewrite H; reflexivity.
Qed.

Lemma step_score (s s' : globals_of num) (e : event) :
  step NaN s e = Some s' ->
  score s' = score s
  \/ (score s' = (score s + 1)%Z
      /\ scoring (game_mode s) = true
      /\ exists h, e = Fire h /\ timer_callback s h = Some RunGameLoop)
  \/ (e = ClickReset /\ score s' = 0%Z).
Proof.
  intros Hstep.
  destruct (quiet s e) eqn:Q.
  - left.
    apply simulation_score.
    eapply quiet_step_simulation; eassumption.
  - destruct e; try discriminate; unfold step in Hstep.
    + right. right. split; [ reflexivity | ]. injection Hstep as <-.
      assert (E : simulation (exec (bind (reset NaN) (fun _ => flush)) s)
                  = simulation (exec (reset NaN) s))
        by (rewrite exec_seq; apply flush_simulation).
      rewrite (simulation_score E).
      exact (f_equal (fun x => snd (fst x)) (reset_simulation NaN s)).
    + unfold quiet in Q.
      destruct (timer_callback s handle) as [ [ | ] | ] eqn:L;
        try discriminate.
      injection Hstep as <-.
      rewrite (simulation_score (tick_simulation s)).
      rewrite (tick_score s (lit 0)).
      destruct (scoring (game_mode s)); [ | now left ].
      destruct (_ <? _); [ | now left ].
      right. left. repeat split. now exists handle.
Qed.

Lemma reachable_score (s : globals_of num) :
  reachable NaN s -> (0 <= score s)%Z.
Proof.
  induction 1 as [ | s e s' _ IH Hstep ].
  - cbn. lia.
  - destruct (step_score _ _ Hstep) as [ -> | [ [ -> _ ] | [ _ -> ] ] ]; lia.
Qed.

End Score.

(** C9.  Scoring is on in humanil and closedL-auto and off in openL and
    closedL.  A tick in a scoring mode adds exactly 1 to the score when
    [|target - output| < 0.15], target and output being the two values the
    tick appends (the target is the waveform at the clock the tick starts
    from, the output is the new [y1]), and leaves it as it is
    otherwise; in the other modes a tick leaves it as it is.  No event but a
    tick raises the score, none lowers it but Reset, which sets it to 0; it
    is never negative. *)
Theorem score_rule :
  forall num (A : Arith num) (NaN : num),
    (scoring "humanil" = true /\ scoring "closedL-auto" = true
     /\ scoring "openL" = false /\ scoring "closedL" = false)
    /\ (forall (s : globals_of num) (d : num),
           let s' := exec gameLoop s in
           let target := last (channel1 s') d in
           let output := last (channel2 s') d in
           output = y1 s'
           /\ score s'
              = if scoring (game_mode s) then
                  if (Math_abs (target - output) <? lit 0.15)%js
                  then (score s + 1)%Z else score s
                else score s)
    /\ (forall (s : globals_of num) (d : num),
           scoring (game_mode s) = true ->
           last (channel1 (exec gameLoop s)) d
           = waveform (target_function s) (t s))
    /\ (forall (s s' : globals_of num) (e : event),
           step NaN s e = Some s' ->
           score s' = score s
           \/ (score s' = (score s + 1)%Z
               /\ scoring (game_mode s) = true
               /\ exists h, e = Fire h
                            /\ timer_callback s h = Some RunGameLoop)
           \/ (e = ClickReset /\ score s' = 0%Z))
    /\ (forall s : globals_of num, reachable NaN s -> (0 <= score s)%Z).
Proof.
  intros num A NaN.
  split; [ repeat split | ].
  split; [ | split; [ | split ] ].
  - intros s d. cbv zeta. rewrite gameLoop_tick. split.
    + apply tick_output.
    + apply tick_score.
  - intros s d. rewrite gameLoop_tick. apply tick_target.
  - intros s s' e. apply step_score.
  - intros s. apply reachable_score.
Qed.

(** One tick in the default mode from the mounted state, once the countdown
    has run out: the target is -0.5, the output 0, the score stays 0; and
    the score of a reachable state is not negative. *)
Lemma score_rule_witness :
  let NaN := PrimFloat.nan in
  let s := after (A := binary64) NaN
                 [ClickStartStop; Fire 1; Fire 1; Fire 1] in
  let s' := after (A := binary64) NaN
                  [ClickStartStop; Fire 1; Fire 1; Fire 1; Fire 2] in
  step (A := binary64) NaN s (Fire 2) = Some s'
  /\ (score s' = score s
      \/ (score s' = (score s + 1)%Z
          /\ scoring (game_mode s) = true
          /\ exists h, Fire 2 = Fire h
                       /\ timer_callback s h = Some RunGameLoop)
      \/ (Fire 2 = ClickReset /\ score s' = 0%Z))
  /\ (0 <= score s')%Z.
Proof.
  intros NaN s s'.
  assert (Hstep : step (A := binary64) NaN s (Fire 2) = Some s')
    by (vm_compute; reflexivity).
  split; [ exact Hstep | split ].
  - exact (proj1 (proj2 (proj2 (proj2 (@score_rule float binary64 NaN))))
             s s' _ Hstep).
  - apply (proj2 (proj2 (proj2 (proj2 (@score_rule float binary64 NaN))))).
    apply after_reachable.
Defined.

(** ** The timeout (claim C8) *)

Section Timeout.

Context {num : Type} {A : Arith num}.
Variable NaN : num.
Local Open Scope js_scope.

Lemma run_app (es es' : list event) (s : globals_of num) :
  run NaN s (es ++ es')
  = match run NaN s es with
    | Some s' => run NaN s' es'
    | None => None
    end.
Proof.
  revert s. induction es as [ | e es IH ]; cbn; intros s; [ reflexivity | ].
  destruct (step NaN s e); [ apply IH | reflexivity ].
Qed.

Lemma repeat_snoc {X} (x : X) (n : nat) : repeat x (S n) = repeat x n ++ [x].
Proof. induction n as [ | n IH ]; cbn in *; [ reflexivity | now rewrite <- IH ]. Qed.

Lemma tick_loop_active (s : globals_of num) :
  loop_active (tick s)
  = if t s + dt >=? lit timeout_seconds then false else loop_active s.
Proof. reflexivity. Qed.

Lemma tick_t (s : globals_of num) : t (tick s) = t s + dt.
Proof. reflexivity. Qed.

Lemma tick_flags (s : globals_of num) :
  intervalId (tick s) = intervalId s /\ watch_seen (tick s) = watch_seen s
  /\ aborted (tick s) = aborted s /\ finished (tick s) = finished s
  /\ countdownTimer (tick s) = countdownTimer s
  /\ timers (tick s) = timers s.
Proof. repeat split. Qed.

(** A tick that does not reach the timeout. *)
Lemma tick_below (s : globals_of num) (h : nat) :
  consistent s -> intervalId s = Some h ->
  (t s + dt >=? lit timeout_seconds) = false ->
  step NaN s (Fire h) = Some (tick s)
  /\ intervalId (tick s) = Some h /\ loop_active (tick s) = true
  /\ finished (tick s) = finished s
  /\ countdownTimer (tick s) = countdownTimer s.
Proof.
  intros H Hh Hlt.
  pose proof (proj2 (c_interval H h) Hh) as L.
  pose proof (c_active H) as Hl. rewrite Hh in Hl.
  pose proof (c_seen H) as Hs.
  unfold step, timer_callback. rewrite L, exec_seq, gameLoop_tick.
  assert (E : loop_active (tick s) = true)
    by (rewrite tick_loop_active, Hlt; congruence).
  destruct (tick_flags s) as (F1 & F2 & F3 & F4 & F5 & F6).
  rewrite flush_seen.
  - repeat split; congruence.
  - congruence.
Qed.

(** The tick that reaches the timeout. *)
Lemma tick_timeout (s : globals_of num) (h : nat) :
  consistent s -> intervalId s = Some h ->
  (t s + dt >=? lit timeout_seconds) = true ->
  exists s', step NaN s (Fire h) = Some s'
    /\ simulation s' = simulation (tick s)
    /\ loop_active s' = false /\ intervalId s' = None
    /\ finished s' = true
    /\ (forall h', timer_callback s' h' <> Some RunGameLoop)
    /\ step NaN s' (Fire h) = None
    /\ countdownTimer s' = countdownTimer s.
Proof.
  intros H Hh Hge.
  pose proof (proj2 (c_interval H h) Hh) as L.
  pose proof (c_active H) as Hl. rewrite Hh in Hl.
  pose proof (c_seen H) as Hs. pose proof (c_aborted H) as Ha.
  eexists. split.
  { unfold step, timer_callback. rewrite L. reflexivity. }
  split; [ apply tick_simulation | ].
  rewrite exec_seq, gameLoop_tick.
  destruct (tick_flags s) as (F1 & F2 & F3 & F4 & F5 & F6).
  rewrite (@flush_stopped _ (tick s) h);
    [ | rewrite tick_loop_active, Hge; reflexivity | congruence | congruence ].
  rewrite F3, Ha.
  assert (G : forall h', lookup (cleared h (timers s)) h' <> Some RunGameLoop).
  { intros h'. rewrite lookup_cleared.
    destruct (h' =? h)%nat eqn:E; [ discriminate | ].
    intros L'.
    apply (c_interval H) in L'. rewrite Hh in L'. injection L' as ->.
    now rewrite Nat.eqb_refl in E. }
  split; [ | split; [ | split; [ | split; [ | split ] ] ] ].
  - change (loop_active (tick s) = false).
    now rewrite tick_loop_active, Hge.
  - reflexivity.
  - reflexivity.
  - intros h'. exact (G h').
  - unfold step, timer_callback.
    match goal with
    | |- context [lookup ?live h] => change live with (cleared h (timers s))
    end.
    now rewrite lookup_cleared, Nat.eqb_refl.
  - reflexivity.
Qed.

Section Count.

(** The number of ticks before the one that reaches the timeout. *)
Variable before : nat.
Hypothesis below :
  forall k, (k < before)%nat ->
            (clock (S k) >=? lit timeout_seconds) = false.
Hypothesis reached : (clock (S before) >=? lit timeout_seconds) = true.

Lemma ticks_below (s : globals_of num) (h : nat) (k : nat) :
  reachable NaN s -> intervalId s = Some h -> t s = lit 0 ->
  (k <= before)%nat ->
  exists sk, run NaN s (repeat (Fire h) k) = Some sk
    /\ reachable NaN sk /\ intervalId sk = Some h
    /\ loop_active sk = true /\ finished sk = finished s
    /\ countdownTimer sk = countdownTimer s
    /\ t sk = clock k.
Proof.
  intros Hreach Hh Ht. induction k as [ | k IH ]; intros Hk.
  - exists s. repeat split; try assumption.
    pose proof (c_active (reachable_consistent Hreach)) as Hl.
    now rewrite Hh in Hl.
  - destruct IH as (sk & Hrun & Hr & Hi & Hl & Hf & Hc & Htk); [ lia | ].
    assert (Hlt : (t sk + dt >=? lit timeout_seconds) = false)
      by (rewrite Htk; apply (below (k := k)); lia).
    destruct (tick_below (reachable_consistent Hr) Hi Hlt)
      as (Hstep & Hi' & Hl' & Hf' & Hc').
    exists (tick sk). rewrite repeat_snoc, run_app, Hrun. cbn [run].
    rewrite Hstep. repeat split; try congruence.
    + exact (reachable_step (Fire h) Hr Hstep).
    + now rewrite tick_t, Htk.
Qed.

Lemma timeout_at (s : globals_of num) (h : nat) :
  reachable NaN s -> intervalId s = Some h -> t s = lit 0 ->
  exists s', run NaN s (repeat (Fire h) (S before)) = Some s'
    /\ reachable NaN s'
    /\ t s' = clock (S before)
    /\ loop_active s' = false /\ intervalId s' = None
    /\ finished s' = true
    /\ (forall h', timer_callback s' h' <> Some RunGameLoop)
    /\ run NaN s (repeat (Fire h) (S (S before))) = None
    /\ countdownTimer s' = countdownTimer s.
Proof.
  intros Hreach Hh Ht.
  destruct (ticks_below Hreach Hh Ht (Nat.le_refl before))
    as (sk & Hrun & Hr & Hi & Hl & Hf & Hc & Htk).
  assert (Hge : (t sk + dt >=? lit timeout_seconds) = true)
    by (rewrite Htk; exact reached).
  destruct (tick_timeout (reachable_consistent Hr) Hi Hge)
    as (s' & Hstep & Hsim & Hl' & Hi' & Hf' & Hno & Hnone & Hc').
  assert (Hrun' : run NaN s (repeat (Fire h) (S before)) = Some s')
    by (rewrite repeat_snoc, run_app, Hrun; cbn [run]; now rewrite Hstep).
  exists s'. repeat split; try assumption.
  - exact (reachable_step (Fire h) Hr Hstep).
  - now rewrite (simulation_t Hsim), tick_t, Htk.
  - rewrite repeat_snoc, run_app, Hrun'. cbn [run]. now rewrite Hnone.
  - congruence.
Qed.

End Count.

(** Finished, with no countdown pending: nothing changes the simulation
    state, and no run starts, until Reset. *)
Lemma finished_run (es : list event) (s s' : globals_of num) :
  consistent s -> loop_active s = false -> countdownTimer s = None ->
  finished s = true -> ~ In ClickReset es -> run NaN s es = Some s' ->
  loop_active s' = false /\ finished s' = true
  /\ simulation s' = simulation s.
Proof.
  revert s. induction es as [ | e es IH ]; cbn;
    intros s H Hidle Hnone Hfin Hnot.
  - intros [= <-]. now repeat split.
  - destruct (step NaN s e) as [ s1 | ] eqn:Hstep; [ | discriminate ].
    intros Hrun.
    assert (Hne : e <> ClickReset) by (intros ->; apply Hnot; now left).
    assert (Hns : e <> ClickStartStop).
    { intros ->. unfold step in Hstep. now rewrite Hfin in Hstep. }
    assert (G : loop_active s1 = false /\ countdownTimer s1 = None).
    { eapply idle_step;
        [ exact H | exact Hidle | exact Hnone | exact Hns | exact Hstep ]. }
    destruct G as [H1 H2].
    assert (Q : quiet s e = true).
    { destruct e; try reflexivity; try congruence. unfold quiet.
      destruct (timer_callback s handle) as [ [ | ] | ] eqn:L;
        try reflexivity.
      apply (c_interval H) in L.
      pose proof (c_active H) as Hl. rewrite L, Hidle in Hl. discriminate. }
    assert (E : simulation s1 = simulation s)
      by (eapply quiet_step_simulation; eassumption).
    rewrite <- E. apply IH; try assumption.
    + eapply step_consistent; eassumption.
    + eapply step_finished; eassumption.
    + intros Hin. apply Hnot. now right.
Qed.

End Timeout.

Section TimesOut.

Context {num : Type} {A : Arith num}.
Variable NaN : num.
Local Open Scope js_scope.

Variable before : nat.
Hypothesis below :
  forall k, (k < before)%nat ->
            (clock (S k) >=? lit timeout_seconds) = false.
Hypothesis reached : (clock (S before) >=? lit timeout_seconds) = true.

Lemma times_out (s : globals_of num) (h : nat) :
  reachable NaN s -> intervalId s = Some h -> t s = lit 0 ->
  times_out_after NaN (S before) s h.
Proof.
  intros Hreach Hh Ht. split.
  - intros k Hk.
    destruct (ticks_below below Hreach Hh Ht (k := k))
      as (sk & Hrun & _ & _ & Hl & Hf & _ & Htk); [ lia | ].
    exists sk. now repeat split.
  - destruct (timeout_at below reached Hreach Hh Ht)
      as (s' & Hrun & Hr & Htk & Hl & Hi & Hf & Hno & Hnone & Hc).
    exists s'. repeat (split; [ assumption | ]). split.
    + intros es s'' Hnot Hrun'.
      assert (Hfin : finished s'' = true)
        by (eapply run_finished; eassumption).
      split; [ exact Hfin | ]. unfold step. now rewrite Hfin.
    + intros Hnone' es s'' Hnot Hrun'.
      assert (G : loop_active s'' = false /\ finished s'' = true
                  /\ simulation s'' = simulation s').
      { eapply finished_run;
          [ exact (reachable_consistent Hr) | exact Hl | congruence
          | exact Hf | exact Hnot | exact Hrun' ]. }
      now destruct G as (G1 & _ & G3).
Qed.

End TimesOut.


(** The exact clock is [k / 20]. *)
Lemma clock_exact (k : nat) : clock (A := exact) k = (INR k / 20)%R.
Proof.
  induction k as [ | k IH ].
  - cbv [clock lit exact Q2R Qnum Qden INR]. lra.
  - rewrite S_INR. cbn [clock]. rewrite IH, dt_exact. cbn [add exact]. lra.
Qed.

Lemma clock_exact_300 :
  let A := exact in
  (forall k, (k < 299)%nat ->
             geb (clock (S k)) (lit timeout_seconds) = false)
  /\ geb (clock 300) (lit timeout_seconds) = true.
Proof.
  intros A.
  assert (L : lit timeout_seconds = 15%R)
    by (cbv [lit A exact timeout_seconds Q2R Qnum Qden]; lra).
  split.
  - intros k Hk. rewrite clock_exact, L. cbn [geb A exact]. unfold Exact.geb.
    destruct (Rge_dec _ _) as [ G | _ ]; [ exfalso | reflexivity ].
    apply lt_INR in Hk. rewrite S_INR in G. cbn in Hk. lra.
  - rewrite clock_exact, L. cbn [geb A exact]. unfold Exact.geb.
    destruct (Rge_dec _ _) as [ _ | G ]; [ reflexivity | exfalso ].
    apply G. cbn. lra.
Qed.



(** The same count in exact arithmetic. *)
Lemma timeout_after_300_ticks_exact (NaN : R) (s : globals_of R) (h : nat) :
  reachable (A := exact) NaN s -> intervalId s = Some h -> t s = 0%R ->
  times_out_after (A := exact) NaN 300 s h.
Proof.
  intros Hreach Hh Ht.
  destruct clock_exact_300 as (below & reached).
  apply (times_out (A := exact) below reached Hreach Hh).
  rewrite Ht. cbv [lit exact Q2R Qnum Qden]. lra.
Qed.

(** ** The triangle waveform (claim C3) *)

Section Triangle.

Local Open Scope R_scope.

Lemma waveform_triangle {num} {A : Arith num} (time : num) :
  waveform "1" time
  = (lit 1 - lit 4 *
       Math_abs (((((time + lit 0.25 / lit 0.4) * lit 0.4) / lit 2)
                  %% lit 1) - lit 0.5))%js.
Proof. reflexivity. Qed.

Lemma rem_1_nonneg (x : R) : 0 <= x -> Exact.rem x 1 = frac_part x.
Proof.
  intros Hx. unfold Exact.rem, Exact.trunc, frac_part.
  replace (x / 1) with x by lra.
  destruct (Rle_dec 0 x) as [ _ | N ]; [ lra | contradiction ].
Qed.

Lemma frac_part_shift (x : R) : frac_part (x + 1) = frac_part x.
Proof.
  unfold frac_part.
  rewrite <- (Int_part_spec (x + 1) (Int_part x + 1)).
  - rewrite plus_IZR. lra.
  - rewrite plus_IZR. destruct (base_Int_part x). lra.
Qed.

Lemma frac_part_small (x : R) : 0 <= x < 1 -> frac_part x = x.
Proof.
  intros Hx. unfold frac_part.
  rewrite <- (Int_part_spec x 0); lra.
Qed.

(** The exact triangle, with the constants worked out: the phase is
    [t / 5 + 1 / 8]. *)
Lemma triangle_exact (time : R) :
  0 <= time ->
  waveform (A := exact) "1" time
  = 1 - 4 * Rabs (frac_part (time / 5 + 1 / 8) - 1 / 2).
Proof.
  intros Ht. rewrite waveform_triangle.
  cbv [lit exact add sub mul div rem Math_abs Q2R Qnum Qden].
  replace ((time + 25 * / 100 / (4 * / 10)) * (4 * / 10) / (2 * / 1))
    with (time / 5 + 1 / 8) by lra.
  replace (1 * / 1) with 1 by lra.
  rewrite rem_1_nonneg by lra.
  set (r := frac_part (time / 5 + 1 / 8)).
  replace (r - 5 * / 10) with (r - 1 / 2) by lra.
  lra.
Qed.

Lemma triangle_formula_phase (time : R) :
  triangle_formula 0.4 time
  = 1 - 4 * Rabs (frac_part (time / 5 + 1 / 8) - 1 / 2).
Proof.
  unfold triangle_formula.
  replace ((time + 0.25 / 0.4) * 0.4 / 2) with (time / 5 + 1 / 8) by lra.
  set (r := frac_part (time / 5 + 1 / 8)).
  replace (r - 0.5) with (r - 1 / 2) by lra.
  reflexivity.
Qed.

Lemma triangle_at_0 : waveform (A := exact) "1" 0 = - 1 / 2.
Proof.
  rewrite triangle_exact by lra.
  rewrite frac_part_small by lra.
  replace (0 / 5 + 1 / 8 - 1 / 2) with (- (3 / 8)) by lra.
  rewrite Rabs_Ropp, Rabs_pos_eq; lra.
Qed.

Lemma triangle_at_half_period : waveform (A := exact) "1" (0 + 5 / 2) = 1 / 2.
Proof.
  rewrite triangle_exact by lra.
  rewrite frac_part_small by lra.
  rewrite Rabs_pos_eq; lra.
Qed.

Lemma triangle_peak : waveform (A := exact) "1" (15 / 8) = 1.
Proof.
  rewrite triangle_exact by lra.
  rewrite frac_part_small by lra.
  replace (15 / 8 / 5 + 1 / 8 - 1 / 2) with 0 by lra.
  rewrite Rabs_R0. lra.
Qed.

End Triangle.

(** *** The clock of a reachable state *)

Section ClockBound.

Context {num : Type} {A : Arith num}.
Variable NaN : num.
Local Open Scope js_scope.

(** A finished session: an event other than Start/Stop, Reset and a tick of
    the game loop starts a run only by cancelling the countdown. *)
Lemma finished_quiet_step (s s' : globals_of num) (e : event) :
  consistent s -> (loop_active s = true -> countdownTimer s = None) ->
  e <> ClickStartStop -> quiet s e = true -> step NaN s e = Some s' ->
  loop_active s' = true -> countdownTimer s' = None.
Proof.
  intros H Himp Hne Hq.
  destruct s as [c1 c2 la ii ui gm tf sc cd fi ab tt' yy1 yy2 ig le ct ws tm nt].
  destruct H as [Ha Hs Hl Hi Hc Hf]; simpl_state_all; subst.
  destruct e; unfold step; simpl_state.
  - congruence.
  - discriminate.
  - destruct (equal _ _); [ discriminate | ].
    destruct (_ && _); [ | discriminate ]. intros [= <-].
    unfold flush. evaluate. rewrite Bool.eqb_reflx. evaluate. exact Himp.
  - destruct ii as [ g | ]; [ discriminate | ].
    destruct (offered _ _); [ | discriminate ]. intros [= <-].
    unfold flush. evaluate. cbn [Bool.eqb]. evaluate. discriminate.
  - destruct ii as [ g | ]; [ discriminate | ]. cbn [orb].
    destruct (_ || _); [ discriminate | ].
    destruct (offered _ _); [ | discriminate ]. intros [= <-].
    unfold flush. evaluate. cbn [Bool.eqb]. evaluate. discriminate.
  - unfold quiet, timer_callback in *. simpl_state_all.
    destruct (lookup tm handle) as [ [ | ] | ] eqn:L; try discriminate.
    apply Hc in L. subst ct.
    destruct ii as [ g | ]; [ specialize (Himp eq_refl); discriminate | ].
    intros [= <-].
    unfold countdownStep, flush, watch_loop_active, setInterval, clearInterval.
    evaluate.
    destruct (cd - 1 <=? 0)%Z; evaluate; [ reflexivity | discriminate ].
Qed.

Variable before : nat.
Hypothesis reached : (clock (S before) >=? lit timeout_seconds) = true.
Hypothesis beyond : (clock (S (S before)) >=? lit timeout_seconds) = true.

Lemma step_clock_within (s s' : globals_of num) (e : event) :
  consistent s -> clock_within (S before) s -> step NaN s e = Some s' ->
  clock_within (S before) s'.
Proof.
  intros H (k & Hk & Hcase) Hstep.
  destruct (quiet s e) eqn:Hq.
  - (* the clock stands still *)
    pose proof (simulation_t (quiet_step_simulation NaN _ _ Hstep Hq)) as Ht.
    exists k. split; [ congruence | ].
    destruct Hcase as [ Hlt | [ (-> & Hf & Himp) | (-> & Hf & Hl & Hc) ] ].
    + now left.
    + assert (Hns : e <> ClickStartStop)
        by (intros ->; unfold step in Hstep; now rewrite Hf in Hstep).
      assert (Hnr : e <> ClickReset) by (intros ->; discriminate).
      right; left. split; [ reflexivity | ]. split.
      * eapply step_finished; eassumption.
      * eapply finished_quiet_step; eassumption.
    + assert (Hns : e <> ClickStartStop)
        by (intros ->; unfold step in Hstep; now rewrite Hf in Hstep).
      assert (Hnr : e <> ClickReset) by (intros ->; discriminate).
      destruct (idle_step NaN H Hl Hc Hns Hstep) as [G1 G2].
      right; right. repeat split; try assumption.
      eapply step_finished; eassumption.
  - destruct e; try discriminate.
    + (* Reset *)
      exists 0%nat. split; [ | left; lia ].
      injection Hstep as <-. rewrite exec_seq.
      rewrite (simulation_t (flush_simulation (exec (reset NaN) s))).
      pose proof (reset_simulation NaN s) as E.
      apply (f_equal (fun p => fst (fst (fst (fst p))))) in E. exact E.
    + (* a tick of the game loop *)
      unfold quiet in Hq.
      destruct (timer_callback s handle) as [ [ | ] | ] eqn:L;
        try discriminate.
      pose proof (proj1 (c_interval H handle) L) as Hi.
      pose proof (c_active H) as Hl. rewrite Hi in Hl.
      exists (S k).
      destruct (t s + dt >=? lit timeout_seconds) eqn:Hge.
      * destruct (tick_timeout NaN H Hi Hge)
          as (s1 & Hstep1 & Hsim & Hl1 & _ & Hf1 & _ & _ & Hc1).
        rewrite Hstep in Hstep1. injection Hstep1 as <-.
        split; [ rewrite (simulation_t Hsim), tick_t, Hk; reflexivity | ].
        destruct Hcase as [ Hlt | [ (-> & Hf & Himp) | (-> & Hf & Hl0 & Hc) ] ].
        -- destruct (Nat.eq_dec (S k) (S before)) as [ E | N ].
           ++ right; left. repeat split; try assumption. congruence.
           ++ left. lia.
        -- right; right. repeat split; try assumption.
           rewrite Hc1. now apply Himp.
        -- congruence.
      * destruct (tick_below NaN H Hi Hge) as (Hstep1 & _).
        rewrite Hstep in Hstep1. injection Hstep1 as ->.
        split; [ rewrite tick_t, Hk; reflexivity | ].
        destruct Hcase as [ Hlt | [ (-> & Hf & Himp) | (-> & Hf & Hl0 & Hc) ] ].
        -- destruct (Nat.eq_dec (S k) (S before)) as [ E | N ];
             [ exfalso | left; lia ].
           injection E as ->. rewrite Hk in Hge. cbn [clock] in reached.
           congruence.
        -- exfalso. rewrite Hk in Hge. cbn [clock] in beyond, Hge. congruence.
        -- congruence.
Qed.

Lemma reachable_clock_within (s : globals_of num) :
  reachable NaN s -> clock_within (S before) s.
Proof.
  induction 1 as [ | s e s' Hr IH Hstep ].
  - exists 0%nat. split; [ reflexivity | left; lia ].
  - eapply step_clock_within;
      [ exact (reachable_consistent Hr) | exact IH | exact Hstep ].
Qed.

End ClockBound.

(** On binary64 the clock of a reachable state has ticked at most 301 times
    since it was last zero. *)
Lemma reachable_clock_binary64 (host_sin : float -> float) (NaN : float)
      (s : globals_of float) :
  reachable (A := binary64_with host_sin) NaN s ->
  exists k, (k <= 301)%nat /\ t s = clock (A := binary64_with host_sin) k.
Proof.
  intros Hr.
  destruct (@reachable_clock_within _ (binary64_with host_sin) NaN 299)
    with (s := s) as (k & Hk & Hcase).
  - vm_compute. reflexivity.
  - vm_compute. reflexivity.
  - exact Hr.
  - exists k. split; [ | exact Hk ].
    destruct Hcase as [ Hlt | [ (-> & _) | (-> & _) ] ]; lia.
Qed.

(** What holds at each of the first 302 values of the binary64 clock holds
    of the clock of every reachable state. *)
Lemma on_clock_grid (host_sin : float -> float) (P : nat -> float -> bool) :
  forallb (fun k => P k (clock (A := binary64_with host_sin) k)) (seq 0 302)
  = true ->
  forall (NaN : float) (s : globals_of float),
    reachable (A := binary64_with host_sin) NaN s ->
    exists k, (k <= 301)%nat /\ t s = clock (A := binary64_with host_sin) k
              /\ P k (t s) = true.
Proof.
  intros B NaN s Hr.
  destruct (reachable_clock_binary64 Hr) as (k & Hk & Ht).
  exists k. split; [ exact Hk | ]. split; [ exact Ht | ].
  rewrite forallb_forall in B. rewrite Ht. apply B, in_seq. lia.
Qed.

(** *** Rational times *)

(** [B2Q] on a few values. *)
Example B2Q_values :
  Qeq_bool (B2Q 0x1p-1) (1 # 2) = true
  /\ Qeq_bool (B2Q (-0x1.8p+0)) (- (3 # 2)) = true
  /\ Qeq_bool (B2Q 3) 3 = true
  /\ Qeq_bool (B2Q 0x1p+60) (inject_Z (2 ^ 60)) = true
  /\ Qeq_bool (B2Q 0x1.999999999999ap-5)
               (3602879701896397 # 72057594037927936) = true
  /\ B2Q 0 = 0%Q.
Proof. vm_compute. repeat split. Qed.

Section Rationals.

Local Open Scope R_scope.

Lemma Q2R_inject_Z (z : Z) : Q2R (inject_Z z) = IZR z.
Proof. unfold Q2R, inject_Z. cbn. lra. Qed.

Lemma frac_part_Q2R (x : Q) : frac_part (Q2R x) = Q2R (fracQ x).
Proof.
  unfold fracQ, frac_part. rewrite Q2R_minus, Q2R_inject_Z.
  rewrite <- (Int_part_spec (Q2R x) (Qfloor x)); [ reflexivity | ].
  pose proof (Qle_Rle _ _ (Qfloor_le x)) as L.
  pose proof (Qlt_Rlt _ _ (Qlt_floor x)) as U.
  rewrite Q2R_inject_Z in L, U. rewrite plus_IZR in U. lra.
Qed.

Lemma Q2R_abs (x : Q) : Q2R (Qabs x) = Rabs (Q2R x).
Proof.
  destruct (Qlt_le_dec x 0) as [ N | P ].
  - rewrite Qabs_neg by now apply Qlt_le_weak.
    apply Qlt_Rlt in N. rewrite RMicromega.Q2R_0 in N.
    rewrite Q2R_opp, Rabs_left; lra.
  - rewrite Qabs_pos by exact P.
    apply Qle_Rle in P. rewrite RMicromega.Q2R_0 in P.
    rewrite Rabs_pos_eq; lra.
Qed.

Lemma Q2R_due (k : nat) : Q2R (due k) = INR k / 20.
Proof.
  unfold due. rewrite Q2R_div by discriminate.
  rewrite Q2R_inject_Z, <- INR_IZR_INZ.
  unfold Q2R. cbn. lra.
Qed.

Lemma due_nonneg (k : nat) : 0 <= Q2R (due k).
Proof.
  rewrite Q2R_due. pose proof (pos_INR k). lra.
Qed.

End Rationals.

Section Ideal.

Local Open Scope R_scope.

Lemma triangle_Q_exact (q : Q) :
  0 <= Q2R q -> waveform (A := exact) "1" (Q2R q) = Q2R (triangle_Q q).
Proof.
  intros Hq. rewrite triangle_exact by exact Hq.
  unfold triangle_Q.
  rewrite Q2R_minus, Q2R_mult, Q2R_abs, Q2R_minus, <- frac_part_Q2R.
  rewrite Q2R_plus, Q2R_div by discriminate.
  replace (Q2R 1) with 1 by (unfold Q2R; cbn; lra).
  replace (Q2R 4) with 4 by (unfold Q2R; cbn; lra).
  replace (Q2R 5) with 5 by (unfold Q2R; cbn; lra).
  replace (Q2R (1 # 8)) with (1 / 8) by (unfold Q2R; cbn; lra).
  replace (Q2R (1 # 2)) with (1 / 2) by (unfold Q2R; cbn; lra).
  reflexivity.
Qed.

Lemma close_to_R (ideal : Q) (x : float) :
  close_to ideal x = true ->
  Rabs (B2R x - Q2R ideal) <= 1 / 10000000000000.
Proof.
  unfold close_to, B2R. intros H.
  apply Qle_bool_iff, Qle_Rle in H.
  rewrite Q2R_abs, Q2R_minus in H.
  replace (Q2R (1 # 10000000000000)) with (1 / 10000000000000) in H
    by (unfold Q2R; cbn; lra).
  exact H.
Qed.

End Ideal.

Section TriangleOnTheGrid.

Variable host_sin : float -> float.
Local Abbreviation B := (binary64_with host_sin).

Lemma triangle_binary64 (NaN : float) (s : globals_of float) :
  reachable (A := B) NaN s ->
  exists k, (k <= 301)%nat /\ t s = clock (A := B) k
    /\ between (-1) 1 (waveform (A := B) "1" (t s)) = true
    /\ (Rabs (B2R (waveform (A := B) "1" (t s))
              - waveform (A := exact) "1" (INR k / 20))
        <= 1 / 10000000000000)%R.
Proof.
  intros Hr.
  destruct (@on_clock_grid host_sin
              (fun k x => between (-1) 1 (waveform (A := B) "1" x)
                          && close_to (triangle_Q (due k))
                                      (waveform (A := B) "1" x)))
    with (NaN := NaN) (s := s) as (k & Hk & Ht & HP).
  - vm_compute. reflexivity.
  - exact Hr.
  - apply andb_true_iff in HP as [H1 H2].
    exists k. split; [ exact Hk | ]. split; [ exact Ht | ].
    split; [ exact H1 | ].
    rewrite <- Q2R_due, triangle_Q_exact by apply due_nonneg.
    now apply close_to_R.
Qed.

End TriangleOnTheGrid.

(** C3 (as stated, refuted).  At [t = 0] the triangle is -0.5, not 1, and
    at [t = 2.5] it is 0.5: 2.5 is not a period.  So it is in exact
    arithmetic, and so it is in binary64. *)
Lemma triangle_not_as_stated :
  (waveform (A := exact) "1" 0%R = (- 1 / 2)%R
   /\ waveform (A := exact) "1" (0 + 5 / 2)%R = (1 / 2)%R)
  /\ (waveform (A := exact) "1" 0%R <> 1%R
      /\ waveform (A := exact) "1" (0 + 5 / 2)%R
         <> waveform (A := exact) "1" 0%R)
  /\ (waveform (A := binary64) "1" 0%float = (-0x1p-1)%float
      /\ waveform (A := binary64) "1" (PrimFloat.add 0 0x1.4p+1)
         = 0x1p-1%float).
Proof.
  split; [ split; [ exact triangle_at_0 | exact triangle_at_half_period ] | ].
  split; [ | split; vm_compute; reflexivity ].
  rewrite triangle_at_half_period, triangle_at_0. split; lra.
Qed.

Section TriangleBinary64.

Variable host_sin : float -> float.
Local Abbreviation B := (binary64_with host_sin).

(** The values 100 ticks apart, a period of the ideal triangle, agree to
    within [10^-13]. *)
Lemma triangle_grid_period (k : nat) :
  (k <= 201)%nat ->
  (Rabs (B2R (waveform (A := B) "1" (clock (A := B) (k + 100)))
         - B2R (waveform (A := B) "1" (clock (A := B) k)))
   <= 1 / 10000000000000)%R.
Proof.
  intros Hk.
  assert (C : forallb (fun k =>
                close_to (B2Q (waveform (A := B) "1" (clock (A := B) k)))
                         (waveform (A := B) "1" (clock (A := B) (k + 100))))
              (seq 0 202) = true)
    by (vm_compute; reflexivity).
  rewrite forallb_forall in C.
  apply close_to_R, C, in_seq. lia.
Qed.

End TriangleBinary64.

(** C3 (amended).  With [target_function] at "1", [targetFunction] returns
    the stated formula with [f = 0.4], evaluated in the arithmetic of the
    script.  Over the reals, for every [t >= 0], that is the triangle of
    period [2 / f = 5] with values in [-1, 1], -0.5 at [t = 0] and its peak
    1 at [t = 1.875].  In binary64 the values at 0 and 1.875 are -0.5 and 1
    as well; at the clock of every reachable state, which has ticked at
    most 301 times, the value lies in [-1, 1] and within [10^-13] of the
    real triangle at the time the tick is due; values 100 ticks apart agree
    to within [10^-13], but the binary64 values are not periodic:
    the value at [1 + 5] is not the value at 1. *)
Theorem triangle_waveform :
  forall (time : R) (host_sin : float -> float) (NaN : float)
         (s : globals_of float),
    let B := binary64_with host_sin in
    (0 <= time)%R -> reachable (A := B) NaN s ->
    (forall num (A : Arith num) (s0 : globals_of num) (x : num),
        target_function s0 = "1"%string ->
        eval (targetFunction x) s0 = triangle_expression (lit 0.4) x)
    /\ (waveform (A := exact) "1" time = triangle_formula 0.4 time
        /\ waveform (A := exact) "1" (time + 5)%R
           = waveform (A := exact) "1" time
        /\ (- 1 <= waveform (A := exact) "1" time <= 1)%R
        /\ waveform (A := exact) "1" 0%R = (- 1 / 2)%R
        /\ waveform (A := exact) "1" (15 / 8)%R = 1%R)
    /\ (waveform (A := B) "1" 0%float = (-0x1p-1)%float
        /\ waveform (A := B) "1" 0x1.ep+0%float = 1%float)
    /\ (exists k, (k <= 301)%nat /\ t s = clock (A := B) k
          /\ between (-1) 1 (waveform (A := B) "1" (t s)) = true
          /\ (Rabs (B2R (waveform (A := B) "1" (t s))
                    - waveform (A := exact) "1" (INR k / 20))
              <= 1 / 10000000000000)%R)
    /\ (forall k, (k <= 201)%nat ->
          (Rabs (B2R (waveform (A := B) "1" (clock (A := B) (k + 100)))
                 - B2R (waveform (A := B) "1" (clock (A := B) k)))
           <= 1 / 10000000000000)%R)
    /\ PrimFloat.eqb (waveform (A := B) "1" (PrimFloat.add 1 5))
                     (waveform (A := B) "1" 1%float) = false.
Proof.
  intros time host_sin NaN s B Ht Hr.
  split; [ | split; [ | split; [ | split; [ | split ] ] ] ].
  - intros num A s0 x E. unfold eval, targetFunction, bind, get, ret.
    cbn [fst]. now rewrite E.
  - split; [ | split; [ | split; [ | split ] ] ].
    + rewrite triangle_exact by exact Ht. now rewrite triangle_formula_phase.
    + rewrite !triangle_exact by lra.
      replace ((time + 5) / 5 + 1 / 8)%R with (time / 5 + 1 / 8 + 1)%R by lra.
      now rewrite frac_part_shift.
    + rewrite triangle_exact by exact Ht.
      destruct (base_fp (time / 5 + 1 / 8)) as [Hlo Hhi].
      assert (Hb : (Rabs (frac_part (time / 5 + 1 / 8) - 1 / 2) <= 1 / 2)%R)
        by (apply Rabs_le; lra).
      pose proof (Rabs_pos (frac_part (time / 5 + 1 / 8) - 1 / 2)).
      lra.
    + exact triangle_at_0.
    + exact triangle_peak.
  - split; vm_compute; reflexivity.
  - exact (triangle_binary64 Hr).
  - intros k Hk. now apply triangle_grid_period.
  - vm_compute. reflexivity.
Qed.

(** Two ticks into a run started in the mode without countdown. *)
Lemma triangle_waveform_witness :
  let B := binary64 in
  let s := after (A := B) PrimFloat.nan
                 [SelectMode "closedL-auto"; ClickStartStop; Fire 1; Fire 1] in
  (target_function s = "1"%string /\ t s = clock (A := B) 2)
  /\ (waveform (A := exact) "1" (1 + 5)%R = waveform (A := exact) "1" 1%R
   /\ (- 1 <= waveform (A := exact) "1" 1%R <= 1)%R)
  /\ (exists k, (k <= 301)%nat /\ t s = clock (A := B) k
        /\ between (-1) 1 (waveform (A := B) "1" (t s)) = true
        /\ (Rabs (B2R (waveform (A := B) "1" (t s))
                  - waveform (A := exact) "1" (INR k / 20))
            <= 1 / 10000000000000)%R)
  /\ PrimFloat.eqb (waveform (A := B) "1" (PrimFloat.add 1 5))
                   (waveform (A := B) "1" 1%float) = false.
Proof.
  intros B s.
  destruct (@triangle_waveform 1%R B64.sin PrimFloat.nan s Rle_0_1
              (after_reachable (A := B) PrimFloat.nan _))
    as (_ & (_ & P & R1 & _) & _ & G & _ & N).
  split; [ split; vm_compute; reflexivity | ].
  split; [ split; [ exact P | exact R1 ] | ].
  split; [ exact G | exact N ].
Defined.

(** ** The time axis (claim C4) *)

Section TimeAxis.

Context {num : Type} {A : Arith num}.
Local Open Scope js_scope.

Lemma store_length {X} (a : list X) (i : nat) (v : X) :
  List.length (store a i v) = List.length a.
Proof.
  revert i. induction a as [ | x a IH ]; intros [ | i ]; cbn;
    try reflexivity. now rewrite IH.
Qed.

Lemma nth_store_other {X} (a : list X) (i j : nat) (v d : X) :
  i <> j -> nth i (store a j v) d = nth i a d.
Proof.
  revert i j. induction a as [ | x a IH ]; intros [ | i ] [ | j ] N; cbn;
    try reflexivity; try contradiction.
  apply IH. congruence.
Qed.

Lemma nth_store_same {X} (a : list X) (j : nat) (v d : X) :
  (j < List.length a)%nat -> nth j (store a j v) d = v.
Proof.
  revert j. induction a as [ | x a IH ]; intros [ | j ] L; cbn in *;
    try lia; try reflexivity.
  apply IH. lia.
Qed.

Lemma nth_Array_from {X} (n i : nat) (f : nat -> X) (d : X) :
  (i < n)%nat -> nth i (Array_from n f) d = f i.
Proof.
  intros L. unfold Array_from.
  rewrite (nth_indep _ d (f 0%nat)) by (now rewrite length_map, length_seq).
  now rewrite map_nth, seq_nth.
Qed.

Lemma timeVector_unfold :
  timeVector = store (Array_from listSize label) 199 (lit 0).
Proof.
  unfold timeVector. fold label.
  set (v := Array_from listSize label).
  assert (L : List.length v = 200%nat)
    by (unfold v, Array_from; now rewrite length_map, length_seq, listSize_200).
  now rewrite L.
Qed.

Lemma timeVector_length : List.length timeVector = 200%nat.
Proof.
  rewrite timeVector_unfold, store_length. unfold Array_from.
  now rewrite length_map, length_seq, listSize_200.
Qed.

Lemma timeVector_nth (i : nat) (d : num) :
  (i < 199)%nat -> nth i timeVector d = label i.
Proof.
  intros L. rewrite timeVector_unfold, nth_store_other by lia.
  apply nth_Array_from. rewrite listSize_200. lia.
Qed.

Lemma timeVector_last (d : num) : nth 199 timeVector d = lit 0.
Proof.
  rewrite timeVector_unfold. apply nth_store_same.
  unfold Array_from. rewrite length_map, length_seq, listSize_200. lia.
Qed.

End TimeAxis.

Section ExactTimeAxis.

Local Open Scope R_scope.

Lemma label_exact (i : nat) : label (A := exact) i = - 10 + INR i / 20.
Proof.
  unfold label. rewrite dt_exact. unfold Number.
  cbv [lit exact add mul neg display_seconds inject_Z Q2R Qnum Qden].
  rewrite INR_IZR_INZ. lra.
Qed.

Lemma timeVector_exact (i : nat) :
  (i < 199)%nat -> nth i (timeVector (A := exact)) 0 = - 10 + INR i / 20.
Proof. intros L. now rewrite timeVector_nth, label_exact. Qed.

Lemma timeVector_exact_last : nth 199 (timeVector (A := exact)) 0 = 0.
Proof.
  rewrite timeVector_last. cbv [lit exact Q2R Qnum Qden]. lra.
Qed.

End ExactTimeAxis.

(** C4 (as stated, refuted).  The last three labels are -0.15, -0.1 and 0:
    the last gap is 0.1 where every other gap is 0.05, so the 200 points are
    not evenly spaced.  In binary64 the last three labels are
    -0.14999999999999858, -0.099999999999999645 and 0. *)
Lemma time_axis_not_evenly_spaced :
  (nth 197 (timeVector (A := exact)) 0%R = (- 15 / 100)%R
   /\ nth 198 (timeVector (A := exact)) 0%R = (- 10 / 100)%R
   /\ nth 199 (timeVector (A := exact)) 0%R = 0%R)
  /\ ~ evenly_spaced (timeVector (A := exact))
  /\ skipn 197 (timeVector (A := binary64))
     = [(-0x1.3333333333300p-3)%float; (-0x1.9999999999980p-4)%float;
        0%float].
Proof.
  assert (E197 : nth 197 (timeVector (A := exact)) 0%R = (- 15 / 100)%R)
    by (rewrite timeVector_exact by lia; cbn; lra).
  assert (E198 : nth 198 (timeVector (A := exact)) 0%R = (- 10 / 100)%R)
    by (rewrite timeVector_exact by lia; cbn; lra).
  pose proof timeVector_exact_last as E199.
  split; [ now repeat split | ].
  split; [ | vm_compute; reflexivity ].
  intros H. specialize (H 197%nat).
  rewrite timeVector_length, E197, E198, E199 in H.
  assert (L : (199 < 200)%nat) by lia. specialize (H L). lra.
Qed.

(** C4 (amended).  The time axis has [listSize = 200] labels; for
    [i < 199] the label at index [i] is [-display_seconds + i * dt], that is
    [-10 + i / 20] exactly, so the first 199 labels run from -10 to -0.1 in
    steps of 0.05; the last label is 0, a gap of 0.1 after -0.1. *)
Theorem time_axis :
  forall i : nat,
    (i < 199)%nat ->
    (forall num (A : Arith num) (d : num),
        List.length (timeVector (A := A)) = 200%nat
        /\ nth i timeVector d
           = (- lit display_seconds + Number (Z.of_nat i) * dt)%js
        /\ nth 199 timeVector d = lit 0)
    /\ listSize = 200%nat
    /\ nth i (timeVector (A := exact)) 0%R = (- 10 + INR i / 20)%R
    /\ nth 199 (timeVector (A := exact)) 0%R = 0%R
    /\ (nth 199 (timeVector (A := exact)) 0
        - nth 198 (timeVector (A := exact)) 0 = 1 / 10)%R
    /\ (nth 0 (timeVector (A := binary64)) 0%float = (-0x1.4p+3)%float
        /\ nth 199 (timeVector (A := binary64)) 1%float = 0%float).
Proof.
  intros i L.
  split; [ | split; [ | split; [ | split; [ | split ] ] ] ].
  - intros num A d. split; [ apply timeVector_length | split ].
    + now apply timeVector_nth.
    + apply timeVector_last.
  - exact listSize_200.
  - now apply timeVector_exact.
  - exact timeVector_exact_last.
  - rewrite timeVector_exact_last, timeVector_exact by lia. cbn. lra.
  - split; vm_compute; reflexivity.
Qed.

Lemma time_axis_witness :
  (5 < 199)%nat
  /\ nth 5 (timeVector (A := exact)) 0%R = (- 10 + INR 5 / 20)%R
  /\ nth 199 (timeVector (A := exact)) 0%R = 0%R.
Proof.
  split; [ lia | ].
  assert (L : (5 < 199)%nat) by lia.
  pose proof (@time_axis 5%nat L) as (_ & _ & H1 & H2 & _).
  split; assumption.
Defined.

(** * Further properties of the session *)

(** ** Timers and flags *)

Section CountdownSteps.

Context {num : Type} {A : Arith num}.
Variable NaN : num.

(** A countdown tick that leaves the countdown above zero. *)
Lemma countdown_tick_pending (s : globals_of num) (h : nat) :
  consistent s -> countdownTimer s = Some h ->
  (countdown s - 1 <=? 0)%Z = false ->
  step NaN s (Fire h) = Some (set_countdown (countdown s - 1)%Z s).
Proof.
  intros H Hh Hc.
  pose proof (proj2 (c_countdown H h) Hh) as L.
  pose proof (c_seen H) as Hs.
  unfold step, timer_callback. rewrite L. f_equal.
  destruct s. simpl_state_all. subst.
  unfold countdownStep, flush. evaluate. rewrite Hc. evaluate.
  now rewrite Bool.eqb_reflx.
Qed.

(** The countdown tick that reaches zero, with no run in progress. *)
Lemma countdown_tick_expires (s : globals_of num) (h : nat) :
  consistent s -> countdownTimer s = Some h -> loop_active s = false ->
  (countdown s - 1 <=? 0)%Z = true ->
  step NaN s (Fire h)
  = Some (set_intervalId (Some (next_timer s))
            (set_next_timer (S (next_timer s))
               (set_timers ((next_timer s, RunGameLoop)
                              :: cleared h (timers s))
                  (set_watch_seen true
                     (set_loop_active true
                        (set_countdown (-1)%Z
                           (set_countdownTimer None s))))))).
Proof.
  intros H Hh Hl Hc.
  pose proof (proj2 (c_countdown H h) Hh) as L.
  pose proof (c_seen H) as Hs.
  unfold step, timer_callback. rewrite L. f_equal.
  destruct s. simpl_state_all. subst.
  unfold countdownStep, flush, watch_loop_active, setInterval, clearInterval.
  evaluate. rewrite Hc. evaluate. reflexivity.
Qed.

(** Start/Stop pressed with nothing in progress, outside the mode that
    skips the countdown. *)
Lemma start_countdown (s : globals_of num) :
  consistent s -> loop_active s = false -> countdownTimer s = None ->
  finished s = false -> equal (game_mode s) "closedL-auto" = false ->
  step NaN s ClickStartStop
  = Some (set_countdownTimer (Some (next_timer s))
            (set_next_timer (S (next_timer s))
               (set_timers ((next_timer s, CountdownTick) :: timers s)
                  (set_countdown countdown_seconds s)))).
Proof.
  intros H Hl Hc Hf Hm.
  pose proof (c_seen H) as Hs.
  unfold step. rewrite Hf. f_equal.
  destruct s. simpl_state_all. subst.
  unfold startStop, flush, setInterval. evaluate. rewrite Hm. evaluate.
  reflexivity.
Qed.

End CountdownSteps.
(** X2.  With nothing in progress and the button enabled, Start/Stop in a
    mode other than closedL-auto sets [countdown] to 3 and starts the
    countdown timer; its first two ticks bring [countdown] to 2 and 1 with
    no run started; the third cancels the timer, puts [countdown] back to
    -1, raises [loop_active], and the watcher starts the game-loop timer.
    The simulation state is untouched throughout. *)
Theorem countdown_three_ticks :
  forall num (A : Arith num) (NaN : num) (s : globals_of num),
    reachable NaN s -> loop_active s = false -> countdownTimer s = None ->
    finished s = false -> equal (game_mode s) "closedL-auto" = false ->
    exists h s1 s2 s3 s4,
      step NaN s ClickStartStop = Some s1
      /\ (countdown s1 = 3%Z /\ countdownTimer s1 = Some h
          /\ loop_active s1 = false)
      /\ step NaN s1 (Fire h) = Some s2
      /\ (countdown s2 = 2%Z /\ loop_active s2 = false)
      /\ step NaN s2 (Fire h) = Some s3
      /\ (countdown s3 = 1%Z /\ loop_active s3 = false)
      /\ step NaN s3 (Fire h) = Some s4
      /\ (countdown s4 = (-1)%Z /\ countdownTimer s4 = None
          /\ timer_callback s4 h = None
          /\ loop_active s4 = true
          /\ exists g, intervalId s4 = Some g
                       /\ timer_callback s4 g = Some RunGameLoop)
      /\ simulation s4 = simulation s.
Proof.
  intros num A NaN s Hreach Hl Hc Hf Hm.
  pose proof (reachable_consistent Hreach) as H.
  pose proof (start_countdown NaN H Hl Hc Hf Hm) as E1.
  set (h := next_timer s) in *.
  set (s1 := set_countdownTimer _ _) in E1.
  assert (H1 : consistent s1) by (eapply step_consistent; eassumption).
  assert (E2 : step NaN s1 (Fire h) = Some (set_countdown 2%Z s1))
    by (apply (countdown_tick_pending NaN H1); reflexivity).
  set (s2 := set_countdown 2%Z s1) in *.
  assert (H2 : consistent s2) by (eapply step_consistent; eassumption).
  assert (E3 : step NaN s2 (Fire h) = Some (set_countdown 1%Z s2))
    by (apply (countdown_tick_pending NaN H2); reflexivity).
  set (s3 := set_countdown 1%Z s2) in *.
  assert (H3 : consistent s3) by (eapply step_consistent; eassumption).
  assert (E4 : step NaN s3 (Fire h) = Some _)
    by (apply (countdown_tick_expires NaN H3 (h := h));
        [ reflexivity | exact Hl | reflexivity ]).
  exists h, s1, s2, s3. eexists.
  split; [ exact E1 | ]. split; [ repeat split; exact Hl | ].
  split; [ exact E2 | ]. split; [ split; [ reflexivity | exact Hl ] | ].
  split; [ exact E3 | ]. split; [ split; [ reflexivity | exact Hl ] | ].
  split; [ exact E4 | ].
  split; [ | reflexivity ].
  repeat split.
  - unfold timer_callback. cbn [timers set_intervalId set_next_timer set_timers].
    rewrite lookup_cons, lookup_cleared, Nat.eqb_refl.
    replace (next_timer s3 =? h)%nat with false; [ reflexivity | ].
    symmetry. apply Nat.eqb_neq. cbn. unfold h. lia.
  - eexists. split; [ reflexivity | ].
    unfold timer_callback. cbn [timers set_intervalId set_next_timer set_timers].
    now rewrite lookup_cons, Nat.eqb_refl.
Qed.
Section StartStopCases.

Context {num : Type} {A : Arith num}.
Variable NaN : num.

(** Start/Stop pressed while the countdown runs. *)
Lemma cancel_countdown (s : globals_of num) (h : nat) :
  consistent s -> loop_active s = false -> countdownTimer s = Some h ->
  finished s = false -> equal (game_mode s) "closedL-auto" = false ->
  step NaN s ClickStartStop
  = Some (set_countdown (-1)%Z
            (set_countdownTimer None
               (set_timers (cleared h (timers s)) s))).
Proof.
  intros H Hl Hc Hf Hm.
  pose proof (c_seen H) as Hs.
  unfold step. rewrite Hf. f_equal.
  destruct s. simpl_state_all. subst.
  unfold startStop, flush, clearInterval. evaluate. rewrite Hm. evaluate.
  reflexivity.
Qed.

(** Start/Stop pressed in the mode that skips the countdown. *)
Lemma start_at_once (s : globals_of num) :
  consistent s -> loop_active s = false ->
  finished s = false -> equal (game_mode s) "closedL-auto" = true ->
  step NaN s ClickStartStop
  = Some (set_intervalId (Some (next_timer s))
            (set_next_timer (S (next_timer s))
               (set_timers ((next_timer s, RunGameLoop) :: timers s)
                  (set_watch_seen true (set_loop_active true s))))).
Proof.
  intros H Hl Hf Hm.
  pose proof (c_seen H) as Hs.
  unfold step. rewrite Hf. f_equal.
  destruct s. simpl_state_all. subst.
  unfold startStop, flush, watch_loop_active, setInterval. evaluate.
  rewrite Hm. evaluate. reflexivity.
Qed.

End StartStopCases.

(** X3.  While the countdown runs (mode other than closedL-auto), a second
    press of Start/Stop cancels the countdown timer and puts [countdown] back
    to -1; no run starts then, whatever happens, until Start/Stop is pressed
    again. *)
Theorem second_press_cancels_countdown :
  forall num (A : Arith num) (NaN : num) (s : globals_of num) (h : nat),
    reachable NaN s -> loop_active s = false -> countdownTimer s = Some h ->
    finished s = false -> equal (game_mode s) "closedL-auto" = false ->
    exists s',
      step NaN s ClickStartStop = Some s'
      /\ countdown s' = (-1)%Z /\ countdownTimer s' = None
      /\ timer_callback s' h = None
      /\ loop_active s' = false /\ finished s' = false
      /\ simulation s' = simulation s
      /\ (forall es s'', ~ In ClickStartStop es ->
                         run NaN s' es = Some s'' -> loop_active s'' = false).
Proof.
  intros num A NaN s h Hreach Hl Hc Hf Hm.
  pose proof (reachable_consistent Hreach) as H.
  pose proof (cancel_countdown NaN H Hl Hc Hf Hm) as E.
  eexists. split; [ exact E | ].
  assert (H' : consistent (set_countdown (-1)%Z
                             (set_countdownTimer None
                                (set_timers (cleared h (timers s)) s))))
    by (eapply step_consistent; eassumption).
  repeat split; try assumption.
  - unfold timer_callback. cbn [timers set_countdown set_countdownTimer set_timers].
    now rewrite lookup_cleared, Nat.eqb_refl.
  - intros es s'' Hnot Hrun.
    assert (G : loop_active s'' = false /\ countdownTimer s'' = None).
    { eapply idle_run;
        [ exact H' | exact Hl | reflexivity | exact Hnot | exact Hrun ]. }
    exact (proj1 G).
Qed.

(** X4.  In closedL-auto, Start/Stop with no run in progress raises
    [loop_active] at once and the watcher starts the game-loop timer;
    [countdown] and [countdownTimer] are not touched, so a countdown that
    was pending (the mode can be switched while it runs) stays live. *)
Theorem observe_mode_skips_countdown :
  forall num (A : Arith num) (NaN : num) (s : globals_of num),
    reachable NaN s -> loop_active s = false ->
    finished s = false -> equal (game_mode s) "closedL-auto" = true ->
    exists s' g,
      step NaN s ClickStartStop = Some s'
      /\ loop_active s' = true
      /\ intervalId s' = Some g /\ timer_callback s' g = Some RunGameLoop
      /\ countdown s' = countdown s /\ countdownTimer s' = countdownTimer s
      /\ (forall c, countdownTimer s = Some c ->
                    timer_callback s' c = Some CountdownTick)
      /\ simulation s' = simulation s.
Proof.
  intros num A NaN s Hreach Hl Hf Hm.
  pose proof (reachable_consistent Hreach) as H.
  pose proof (start_at_once NaN H Hl Hf Hm) as E.
  eexists. exists (next_timer s). split; [ exact E | ].
  repeat split.
  - unfold timer_callback. cbn [timers set_intervalId set_next_timer set_timers].
    now rewrite lookup_cons, Nat.eqb_refl.
  - intros c Hc.
    unfold timer_callback. cbn [timers set_intervalId set_next_timer set_timers].
    pose proof (proj2 (c_countdown H c) Hc) as L.
    rewrite lookup_cons.
    destruct (next_timer s =? c)%nat eqn:E'; [ | exact L ].
    apply Nat.eqb_eq in E'. subst c.
    rewrite (c_fresh H (Nat.le_refl (next_timer s))) in L. discriminate.
Qed.

Lemma countdown_three_ticks_witness :
  let NaN := PrimFloat.nan in
  let s := after (A := binary64) NaN [] in
  exists h s1 s2 s3 s4,
    step (A := binary64) NaN s ClickStartStop = Some s1
    /\ (countdown s1 = 3%Z /\ countdownTimer s1 = Some h
        /\ loop_active s1 = false)
    /\ step (A := binary64) NaN s1 (Fire h) = Some s2
    /\ (countdown s2 = 2%Z /\ loop_active s2 = false)
    /\ step (A := binary64) NaN s2 (Fire h) = Some s3
    /\ (countdown s3 = 1%Z /\ loop_active s3 = false)
    /\ step (A := binary64) NaN s3 (Fire h) = Some s4
    /\ (countdown s4 = (-1)%Z /\ countdownTimer s4 = None
        /\ timer_callback s4 h = None
        /\ loop_active s4 = true
        /\ exists g, intervalId s4 = Some g
                     /\ timer_callback s4 g = Some RunGameLoop)
    /\ simulation s4 = simulation s.
Proof.
  intros NaN s.
  apply (@countdown_three_ticks float binary64 NaN s).
  - apply (after_reachable (A := binary64)).
  - reflexivity.
  - reflexivity.
  - reflexivity.
  - reflexivity.
Defined.

Lemma second_press_cancels_countdown_witness :
  let NaN := PrimFloat.nan in
  let s := after (A := binary64) NaN [ClickStartStop] in
  exists s',
    step (A := binary64) NaN s ClickStartStop = Some s'
    /\ countdown s' = (-1)%Z /\ countdownTimer s' = None
    /\ timer_callback s' 1 = None
    /\ loop_active s' = false /\ finished s' = false
    /\ simulation s' = simulation s
    /\ (forall es s'', ~ In ClickStartStop es ->
                       run (A := binary64) NaN s' es = Some s'' ->
                       loop_active s'' = false).
Proof.
  intros NaN s.
  apply (@second_press_cancels_countdown float binary64 NaN s 1%nat).
  - apply (after_reachable (A := binary64)).
  - reflexivity.
  - reflexivity.
  - reflexivity.
  - reflexivity.
Defined.

Lemma observe_mode_skips_countdown_witness :
  let NaN := PrimFloat.nan in
  let s := after (A := binary64) NaN
                 [ClickStartStop; SelectMode "closedL-auto"] in
  exists s' g,
    step (A := binary64) NaN s ClickStartStop = Some s'
    /\ loop_active s' = true
    /\ intervalId s' = Some g /\ timer_callback s' g = Some RunGameLoop
    /\ countdown s' = countdown s /\ countdownTimer s' = countdownTimer s
    /\ (forall c, countdownTimer s = Some c ->
                  timer_callback s' c = Some CountdownTick)
    /\ simulation s' = simulation s.
Proof.
  intros NaN s.
  apply (@observe_mode_skips_countdown float binary64 NaN s).
  - apply (after_reachable (A := binary64)).
  - reflexivity.
  - reflexivity.
  - reflexivity.
Defined.

(** ** Selections, countdown display, Reset and unmount *)

Section Selections.

Context {num : Type} {A : Arith num}.
Variable NaN : num.

Lemma flush_selection (s : globals_of num) :
  selection (exec flush s) = selection s.
Proof.
  apply (wp_exec flush (fun s' => selection s' = selection s)).
  destruct s. unfold selection. wp_run; reflexivity.
Qed.

Lemma startStop_selection (s : globals_of num) :
  selection (exec startStop s) = selection s.
Proof.
  apply (wp_exec startStop (fun s' => selection s' = selection s)).
  destruct s. unfold selection. wp_run; reflexivity.
Qed.

Lemma countdownStep_selection (s : globals_of num) :
  selection (exec countdownStep s) = selection s.
Proof.
  apply (wp_exec countdownStep (fun s' => selection s' = selection s)).
  destruct s. unfold selection. wp_run; reflexivity.
Qed.

Lemma reset_selection (s : globals_of num) :
  selection (exec (reset NaN) s) = (0%Z, game_mode s, target_function s).
Proof.
  apply (wp_exec (reset NaN) (fun s' => selection s' = _)).
  destruct s. unfold selection. wp_run; reflexivity.
Qed.

Lemma step_selections (s s' : globals_of num) (e : event) :
  step NaN s e = Some s' -> selections_offered s -> selections_offered s'.
Proof.
  unfold selections_offered.
  assert (G : forall a b : globals_of num,
             selection a = selection b ->
             userInput a = userInput b /\ game_mode a = game_mode b
             /\ target_function a = target_function b).
  { intros a b E. unfold selection in E. now injection E as -> -> ->. }
  destruct e; unfold step; intros Hstep (Hm & Hf & Hu).
  - destruct (finished s); [ discriminate | ]. injection Hstep as <-.
    destruct (G (exec (bind startStop (fun _ => flush)) s) s) as (-> & -> & ->);
      [ | now repeat split ].
    now rewrite exec_seq, flush_selection, startStop_selection.
  - injection Hstep as <-.
    assert (E : selection (exec (bind (reset NaN) (fun _ => flush)) s)
                = (0%Z, game_mode s, target_function s))
      by (now rewrite exec_seq, flush_selection, reset_selection).
    unfold selection in E. injection E as -> -> ->.
    repeat split; try assumption; lia.
  - destruct (equal _ _); [ discriminate | ].
    destruct ((-150 <=? value)%Z && (value <=? 150)%Z) eqn:R;
      [ | discriminate ].
    injection Hstep as <-.
    assert (E : selection (exec (bind (put (@set_userInput num) value)
                                      (fun _ => flush)) s)
                = (value, game_mode s, target_function s))
      by (rewrite exec_seq, flush_selection; now destruct s).
    unfold selection in E. injection E as -> -> ->.
    apply andb_prop in R as [R1 R2].
    repeat split; try assumption; lia.
  - destruct (loop_active s); [ discriminate | ].
    destruct (offered mode_options mode) eqn:O; [ | discriminate ].
    injection Hstep as <-.
    assert (E : selection (exec (bind (put (@set_game_mode num) mode)
                                      (fun _ => flush)) s)
                = (userInput s, mode, target_function s))
      by (rewrite exec_seq, flush_selection; now destruct s).
    unfold selection in E. injection E as -> -> ->. now repeat split.
  - destruct (_ || _); [ discriminate | ].
    destruct (offered function_options f) eqn:O; [ | discriminate ].
    injection Hstep as <-.
    assert (E : selection (exec (bind (put (@set_target_function num) f)
                                      (fun _ => flush)) s)
                = (userInput s, game_mode s, f))
      by (rewrite exec_seq, flush_selection; now destruct s).
    unfold selection in E. injection E as -> -> ->. now repeat split.
  - destruct (timer_callback s handle) as [ [ | ] | ]; try discriminate;
      injection Hstep as <-.
    + destruct (G (exec (bind gameLoop (fun _ => flush)) s) s)
        as (-> & -> & ->); [ | now repeat split ].
      now rewrite exec_seq, flush_selection, gameLoop_tick.
    + destruct (G (exec (bind countdownStep (fun _ => flush)) s) s)
        as (-> & -> & ->); [ | now repeat split ].
      now rewrite exec_seq, flush_selection, countdownStep_selection.
Qed.

Lemma reachable_selections (s : globals_of num) :
  reachable NaN s -> selections_offered s.
Proof.
  induction 1 as [ | s e s' _ IH Hstep ].
  - repeat split; cbn; lia.
  - eapply step_selections; eassumption.
Qed.

End Selections.

(** X6.  In every reachable state the mode and the target function are
    among the options of their selects and the slider value is within
    [-150, 150]; so the mode is one of the four that [gameLoop] wires, and
    its branch that would leave the plant input at 0 is never taken. *)
Theorem selections_stay_offered :
  forall num (A : Arith num) (NaN : num) (s : globals_of num),
    reachable NaN s ->
    In (game_mode s) mode_options
    /\ In (target_function s) function_options
    /\ (-150 <= userInput s <= 150)%Z
    /\ (equal (game_mode s) "humanil" || equal (game_mode s) "openL")
       || (equal (game_mode s) "closedL" || equal (game_mode s) "closedL-auto")
       = true.
Proof.
  intros num A NaN s Hreach.
  destruct (reachable_selections Hreach) as (Hm & Hf & Hu).
  assert (G : forall options v, offered options v = true -> In v options).
  { intros options v O. unfold offered in O.
    apply existsb_exists in O as (x & Hin & E).
    apply String.eqb_eq in E. now subst x. }
  repeat split; try (now apply G); try lia.
  unfold offered, mode_options in Hm. cbn [existsb] in Hm.
  destruct (equal (game_mode s) "openL"), (equal (game_mode s) "humanil"),
    (equal (game_mode s) "closedL"), (equal (game_mode s) "closedL-auto");
    try reflexivity; discriminate.
Qed.

(** X7.  While [loop_active] is up the mode select and the function select
    are disabled, and no event changes [game_mode] or [target_function]: a
    run keeps the settings it was started with. *)
Theorem settings_fixed_while_running :
  forall num (A : Arith num) (NaN : num) (s : globals_of num),
    loop_active s = true ->
    (forall m, step NaN s (SelectMode m) = None)
    /\ (forall f, step NaN s (SelectFunction f) = None)
    /\ (forall e s', step NaN s e = Some s' ->
                     game_mode s' = game_mode s
                     /\ target_function s' = target_function s).
Proof.
  intros num A NaN s Hl.
  split; [ intros m; unfold step; now rewrite Hl | ].
  split; [ intros f; unfold step; now rewrite Hl | ].
  intros e s' Hstep.
  assert (G : forall a b : globals_of num,
             selection a = selection b ->
             game_mode a = game_mode b
             /\ target_function a = target_function b).
  { intros a b E. unfold selection in E. now injection E as _ -> ->. }
  destruct e; unfold step in Hstep.
  - destruct (finished s); [ discriminate | ]. injection Hstep as <-.
    apply G. now rewrite exec_seq, flush_selection, startStop_selection.
  - injection Hstep as <-.
    assert (E : selection (exec (bind (reset NaN) (fun _ => flush)) s)
                = (0%Z, game_mode s, target_function s))
      by (now rewrite exec_seq, flush_selection, reset_selection).
    unfold selection in E. now injection E as _ -> ->.
  - destruct (equal _ _); [ discriminate | ].
    destruct (_ && _); [ | discriminate ]. injection Hstep as <-.
    assert (E : selection (exec (bind (put (@set_userInput num) value)
                                      (fun _ => flush)) s)
                = (value, game_mode s, target_function s))
      by (rewrite exec_seq, flush_selection; now destruct s).
    unfold selection in E. now injection E as _ -> ->.
  - rewrite Hl in Hstep. discriminate.
  - rewrite Hl in Hstep. discriminate.
  - destruct (timer_callback s handle) as [ [ | ] | ]; try discriminate;
      injection Hstep as <-; apply G.
    + now rewrite exec_seq, flush_selection, gameLoop_tick.
    + now rewrite exec_seq, flush_selection, countdownStep_selection.
Qed.

Section CountdownShown.

Context {num : Type} {A : Arith num}.
Variable NaN : num.

Lemma flush_countdown (s : globals_of num) :
  countdown_shown s -> countdown_shown (exec flush s).
Proof.
  apply (wp_exec flush (fun s' => countdown_shown s -> countdown_shown s')).
  destruct s. unfold countdown_shown. simpl_state. wp_run; intros P; exact P.
Qed.

Lemma step_countdown_shown (s s' : globals_of num) (e : event) :
  step NaN s e = Some s' -> countdown_shown s -> countdown_shown s'.
Proof.
  destruct e; unfold step; intros Hstep P.
  - destruct (finished s); [ discriminate | ]. injection Hstep as <-.
    rewrite exec_seq. apply flush_countdown. revert P.
    apply (wp_exec startStop
             (fun s' => countdown_shown s -> countdown_shown s')).
    destruct s. unfold countdown_shown. simpl_state.
    wp_run; intros P; unfold countdown_seconds; try exact P; lia.
  - injection Hstep as <-. rewrite exec_seq. apply flush_countdown.
    revert P.
    apply (wp_exec (reset NaN)
             (fun s' => countdown_shown s -> countdown_shown s')).
    destruct s. unfold countdown_shown. simpl_state.
    wp_run; intros P; exact P.
  - destruct (equal _ _); [ discriminate | ].
    destruct (_ && _); [ | discriminate ]. injection Hstep as <-.
    rewrite exec_seq. apply flush_countdown. now destruct s.
  - destruct (loop_active s); [ discriminate | ].
    destruct (offered _ _); [ | discriminate ]. injection Hstep as <-.
    rewrite exec_seq. apply flush_countdown. now destruct s.
  - destruct (_ || _); [ discriminate | ].
    destruct (offered _ _); [ | discriminate ]. injection Hstep as <-.
    rewrite exec_seq. apply flush_countdown. now destruct s.
  - destruct (timer_callback s handle) as [ [ | ] | ]; try discriminate;
      injection Hstep as <-; rewrite exec_seq; apply flush_countdown.
    + rewrite gameLoop_tick. exact P.
    + revert P.
      apply (wp_exec countdownStep
               (fun s' => countdown_shown s -> countdown_shown s')).
      destruct s. unfold countdown_shown. simpl_state.
      wp_run; intros P; try reflexivity.
      match goal with E : (_ <=? 0)%Z = false |- _ => apply Z.leb_gt in E end.
      match goal with
      | P : match ?o with Some _ => _ | None => _ end |- _ => destruct o
      end; lia.
Qed.

End CountdownShown.

(** X5.  In every reachable state [countdown] is positive, and at most 3,
    exactly while the countdown timer is pending, and is -1 otherwise: the
    button shows a digit exactly during a countdown. *)
Theorem countdown_digit_shown_while_pending :
  forall num (A : Arith num) (NaN : num) (s : globals_of num),
    reachable NaN s ->
    (countdownTimer s <> None <-> (0 < countdown s)%Z)
    /\ (countdownTimer s = None -> countdown s = (-1)%Z)
    /\ (countdown s <= 3)%Z.
Proof.
  intros num A NaN s Hreach.
  assert (P : countdown_shown s).
  { induction Hreach as [ | s e s' _ IH Hstep ].
    - reflexivity.
    - eapply step_countdown_shown; eassumption. }
  unfold countdown_shown in P.
  destruct (countdownTimer s); repeat split; intros; try lia; congruence.
Qed.

Section ResetTwice.

Context {num : Type} {A : Arith num}.
Variable NaN : num.

Lemma reset_reset (s : globals_of num) :
  consistent s ->
  exec (bind (reset NaN) (fun _ => flush))
       (exec (bind (reset NaN) (fun _ => flush)) s)
  = exec (bind (reset NaN) (fun _ => flush)) s.
Proof.
  intros H.
  destruct s as [c1 c2 la ii ui gm tf sc cd fi ab tt' yy1 yy2 ig le ct ws tm nt].
  destruct H as [Ha Hs Hl Hi Hc Hf]; simpl_state_all; subst.
  unfold reset, updateChart, flush, watch_loop_active, clearInterval.
  destruct ii; evaluate; cbn [Bool.eqb negb]; reflexivity.
Qed.

End ResetTwice.

(** X8.  A second Reset right after a Reset changes nothing. *)
Theorem reset_is_idempotent :
  forall num (A : Arith num) (NaN : num) (s s1 : globals_of num),
    reachable NaN s -> step NaN s ClickReset = Some s1 ->
    step NaN s1 ClickReset = Some s1.
Proof.
  intros num A NaN s s1 Hreach Hstep.
  unfold step in *. injection Hstep as <-. f_equal.
  apply reset_reset. exact (reachable_consistent Hreach).
Qed.

(** X9.  The callback of the watcher never assigns [loop_active]: once the
    watcher has run it has seen the current value, and running it again
    does nothing, in any state. *)
Theorem watcher_runs_once_per_change :
  forall num (A : Arith num) (s : globals_of num),
    exec flush (exec flush s) = exec flush s
    /\ watch_seen (exec flush s) = loop_active s
    /\ loop_active (exec flush s) = loop_active s.
Proof.
  intros num A s.
  destruct s
    as [c1 c2 la ii ui gm tf sc cd fi ab tt' yy1 yy2 ig le ct ws tm nt].
  unfold flush, watch_loop_active, setInterval, clearInterval.
  destruct la, ws, ii; evaluate; cbn [Bool.eqb negb]; evaluate;
    try (destruct ab); repeat split.
Qed.

(** X10.  Along any events from a reachable state the score stays
    non-negative and rises by at most the number of timer events among
    them: at most one point per tick. *)
Theorem score_at_most_one_per_tick :
  forall num (A : Arith num) (NaN : num) (es : list event)
         (s s' : globals_of num),
    reachable NaN s -> run NaN s es = Some s' ->
    (0 <= score s' <= score s + Z.of_nat (fired es))%Z.
Proof.
  intros num A NaN es. induction es as [ | e es IH ]; intros s s' Hreach Hrun.
  - cbn in Hrun. injection Hrun as <-.
    pose proof (reachable_score Hreach). cbn. lia.
  - cbn [run] in Hrun.
    destruct (step NaN s e) as [ s1 | ] eqn:Hstep; [ | discriminate ].
    assert (Hr1 : reachable NaN s1) by exact (reachable_step e Hreach Hstep).
    specialize (IH s1 s' Hr1 Hrun).
    pose proof (reachable_score Hreach) as H0.
    assert (F : forall e' : event, (fired es <= fired (e' :: es))%nat).
    { intros e'. unfold fired. cbn [filter]. destruct e'; cbn; lia. }
    destruct (@step_score _ _ NaN s s1 e Hstep)
      as [ E | [ (E & _ & h & -> & _) | (-> & E) ] ].
    + specialize (F e). lia.
    + unfold fired in *. cbn [filter List.length]. lia.
    + specialize (F ClickReset). lia.
Qed.


(** X1.  In every reachable state [aborted] is down; [loop_active] is up
    exactly when [intervalId] holds a handle; a game-loop timer is live
    exactly under the handle in [intervalId] and a countdown timer exactly
    under the handle in [countdownTimer]: no timer is ever leaked, and there
    is at most one of each kind. *)
Theorem timers_accounted_for :
  forall num (A : Arith num) (NaN : num) (s : globals_of num),
    reachable NaN s ->
    aborted s = false
    /\ (loop_active s = true <-> exists g, intervalId s = Some g)
    /\ (forall h, timer_callback s h = Some RunGameLoop
                  <-> intervalId s = Some h)
    /\ (forall h, timer_callback s h = Some CountdownTick
                  <-> countdownTimer s = Some h)
    /\ (forall h h' cb, timer_callback s h = Some cb ->
                        timer_callback s h' = Some cb -> h = h').
Proof.
  intros num A NaN s Hreach.
  pose proof (reachable_consistent Hreach) as H.
  split; [ exact (c_aborted H) | ].
  split.
  { rewrite (c_active H). destruct (intervalId s) as [ g | ].
    - split; [ now exists g | reflexivity ].
    - split; [ discriminate | intros (g & E); discriminate ]. }
  split; [ exact (c_interval H) | ].
  split; [ exact (c_countdown H) | ].
  intros h h' cb L L'. unfold timer_callback in *.
  destruct cb.
  - apply (c_interval H) in L, L'. congruence.
  - apply (c_countdown H) in L, L'. congruence.
Qed.

Lemma timers_accounted_for_witness :
  let s := after (A := binary64) PrimFloat.nan
                 [ClickStartStop; SelectMode "closedL-auto"; ClickStartStop] in
  aborted s = false
  /\ (loop_active s = true <-> exists g, intervalId s = Some g)
  /\ (forall h, timer_callback s h = Some RunGameLoop
                <-> intervalId s = Some h)
  /\ (forall h, timer_callback s h = Some CountdownTick
                <-> countdownTimer s = Some h)
  /\ (forall h h' cb, timer_callback s h = Some cb ->
                      timer_callback s h' = Some cb -> h = h').
Proof.
  intros s.
  apply (@timers_accounted_for float binary64 PrimFloat.nan s).
  apply (after_reachable (A := binary64)).
Defined.

Lemma countdown_digit_shown_while_pending_witness :
  let s := after (A := binary64) PrimFloat.nan [ClickStartStop; Fire 1] in
  (countdownTimer s <> None <-> (0 < countdown s)%Z)
  /\ (countdownTimer s = None -> countdown s = (-1)%Z)
  /\ (countdown s <= 3)%Z.
Proof.
  intros s.
  apply (@countdown_digit_shown_while_pending float binary64 PrimFloat.nan s).
  apply (after_reachable (A := binary64)).
Defined.

Lemma selections_stay_offered_witness :
  let s := after (A := binary64) PrimFloat.nan
                 [SelectMode "openL"; Slide 150] in
  In (game_mode s) mode_options
  /\ In (target_function s) function_options
  /\ (-150 <= userInput s <= 150)%Z
  /\ (equal (game_mode s) "humanil" || equal (game_mode s) "openL")
     || (equal (game_mode s) "closedL" || equal (game_mode s) "closedL-auto")
     = true.
Proof.
  intros s.
  apply (@selections_stay_offered float binary64 PrimFloat.nan s).
  apply (after_reachable (A := binary64)).
Defined.

Lemma settings_fixed_while_running_witness :
  let NaN := PrimFloat.nan in
  let s := after (A := binary64) NaN
                 [SelectMode "closedL-auto"; ClickStartStop] in
  (forall m, step (A := binary64) NaN s (SelectMode m) = None)
  /\ (forall f, step (A := binary64) NaN s (SelectFunction f) = None)
  /\ (forall e s', step (A := binary64) NaN s e = Some s' ->
                   game_mode s' = game_mode s
                   /\ target_function s' = target_function s).
Proof.
  intros NaN s.
  apply (@settings_fixed_while_running float binary64 NaN s).
  vm_compute. reflexivity.
Defined.

Lemma reset_is_idempotent_witness :
  let NaN := PrimFloat.nan in
  let s := after (A := binary64) NaN
                 [SelectMode "closedL-auto"; ClickStartStop; Fire 1] in
  let s1 := after (A := binary64) NaN
                  [SelectMode "closedL-auto"; ClickStartStop; Fire 1;
                   ClickReset] in
  step (A := binary64) NaN s1 ClickReset = Some s1.
Proof.
  intros NaN s s1.
  apply (@reset_is_idempotent float binary64 NaN s s1).
  - apply (after_reachable (A := binary64)).
  - vm_compute. reflexivity.
Defined.

Lemma score_at_most_one_per_tick_witness :
  let NaN := PrimFloat.nan in
  let s := after (A := binary64) NaN
                 [SelectMode "closedL-auto"; ClickStartStop] in
  let s' := after (A := binary64) NaN
                  [SelectMode "closedL-auto"; ClickStartStop;
                   Fire 1; Fire 1; ClickStartStop] in
  (0 <= score s' <= score s + 2)%Z.
Proof.
  intros NaN s s'.
  apply (@score_at_most_one_per_tick float binary64 NaN
           [Fire 1; Fire 1; ClickStartStop] s s').
  - apply (after_reachable (A := binary64)).
  - vm_compute. reflexivity.
Defined.


(** * Further properties of waveforms, plant, wiring and buffer *)

(** ** The other waveforms *)

Section Waveforms.

Local Open Scope R_scope.

Lemma waveform_sawtooth {num} {A : Arith num} (time : num) :
  waveform "2" time
  = (lit 2 * (((time + lit 0.25 / lit 0.4) * lit 0.4) %% lit 1) - lit 1)%js.
Proof. reflexivity. Qed.

Lemma sawtooth_exact (time : R) :
  0 <= time ->
  waveform (A := exact) "2" time
  = 2 * frac_part (2 * time / 5 + 1 / 4) - 1.
Proof.
  intros Ht.
  rewrite waveform_sawtooth.
  cbv [lit exact add sub mul div rem Q2R Qnum Qden].
  replace ((time + 25 * / 100 / (4 * / 10)) * (4 * / 10))
    with (2 * time / 5 + 1 / 4) by lra.
  replace (1 * / 1) with 1 by lra.
  rewrite rem_1_nonneg by lra. lra.
Qed.

End Waveforms.

Section SawtoothBinary64.

Local Open Scope R_scope.

Lemma sawtooth_Q_exact (q : Q) :
  0 <= Q2R q -> waveform (A := exact) "2" (Q2R q) = Q2R (sawtooth_Q q).
Proof.
  intros Hq. rewrite sawtooth_exact by exact Hq.
  unfold sawtooth_Q.
  rewrite Q2R_minus, Q2R_mult, <- frac_part_Q2R.
  rewrite Q2R_plus, Q2R_div, Q2R_mult by discriminate.
  replace (Q2R 1) with 1 by (unfold Q2R; cbn; lra).
  replace (Q2R 2) with 2 by (unfold Q2R; cbn; lra).
  replace (Q2R 5) with 5 by (unfold Q2R; cbn; lra).
  replace (Q2R (1 # 4)) with (1 / 4) by (unfold Q2R; cbn; lra).
  reflexivity.
Qed.

Variable host_sin : float -> float.
Local Abbreviation B := (binary64_with host_sin).

Lemma sawtooth_binary64 (NaN : float) (s : globals_of float) :
  reachable (A := B) NaN s ->
  exists k, (k <= 301)%nat /\ t s = clock (A := B) k
    /\ PrimFloat.leb (-1) (waveform (A := B) "2" (t s)) = true
    /\ PrimFloat.ltb (waveform (A := B) "2" (t s)) 1 = true
    /\ (Rabs (B2R (waveform (A := B) "2" (t s))
              - waveform (A := exact) "2" (INR k / 20))
        <= 1 / 10000000000000)%R.
Proof.
  intros Hr.
  destruct (@on_clock_grid host_sin
              (fun k x => PrimFloat.leb (-1) (waveform (A := B) "2" x)
                          && PrimFloat.ltb (waveform (A := B) "2" x) 1
                          && close_to (sawtooth_Q (due k))
                                      (waveform (A := B) "2" x)))
    with (NaN := NaN) (s := s) as (k & Hk & Ht & HP).
  - vm_compute. reflexivity.
  - exact Hr.
  - apply andb_true_iff in HP as [H1 H3].
    apply andb_true_iff in H1 as [H1 H2].
    exists k. split; [ exact Hk | ]. split; [ exact Ht | ].
    split; [ exact H1 | ]. split; [ exact H2 | ].
    rewrite <- Q2R_due, sawtooth_Q_exact by apply due_nonneg.
    now apply close_to_R.
Qed.

(** The real sawtooth just below its first jump. *)
Lemma sawtooth_before_jump :
  99 / 100 < waveform (A := exact) "2" (B2R 0x1.dffffffffffffp+0).
Proof.
  unfold B2R. rewrite sawtooth_Q_exact.
  - replace (99 / 100) with (Q2R (99 # 100)) by (unfold Q2R; cbn; lra).
    apply Qlt_Rlt. vm_compute. reflexivity.
  - replace 0 with (Q2R 0) by (unfold Q2R; cbn; lra).
    apply Qle_Rle. vm_compute. discriminate.
Qed.

End SawtoothBinary64.

(** X17.  The sawtooth (function 2).  Over the reals it has period
    [1 / f = 2.5], lies in [-1, 1), starts at -0.5 like the triangle, and
    rises with slope [2 * f = 0.8] up to its first jump at [t = 1.875].  In
    binary64 it starts at -0.5 too, and at the clock of every reachable
    state, which has ticked at most 301 times, its value lies in [-1, 1)
    and within [10^-13] of the real sawtooth at the time the tick is due.
    Off the clock the jump comes early: at the largest binary64 number
    below 1.875 the value is -1 already, where the real sawtooth is above
    0.99. *)
Theorem sawtooth_waveform :
  forall (time : R) (host_sin : float -> float) (NaN : float)
         (s : globals_of float),
    let B := binary64_with host_sin in
    (0 <= time)%R -> reachable (A := B) NaN s ->
    (waveform (A := exact) "2" (time + 5 / 2)%R = waveform (A := exact) "2" time
     /\ (- 1 <= waveform (A := exact) "2" time < 1)%R
     /\ waveform (A := exact) "2" 0%R = (- 1 / 2)%R
     /\ (time < 15 / 8 ->
         waveform (A := exact) "2" time = (4 * time / 5 - 1 / 2)%R)%R)
    /\ waveform (A := B) "2" 0%float = (-0x1p-1)%float
    /\ (exists k, (k <= 301)%nat /\ t s = clock (A := B) k
          /\ PrimFloat.leb (-1) (waveform (A := B) "2" (t s)) = true
          /\ PrimFloat.ltb (waveform (A := B) "2" (t s)) 1 = true
          /\ (Rabs (B2R (waveform (A := B) "2" (t s))
                    - waveform (A := exact) "2" (INR k / 20))
              <= 1 / 10000000000000)%R)
    /\ (PrimFloat.ltb 0x1.dffffffffffffp+0 0x1.ep+0 = true
        /\ waveform (A := B) "2" 0x1.dffffffffffffp+0%float = (-1)%float
        /\ (99 / 100
            < waveform (A := exact) "2" (B2R 0x1.dffffffffffffp+0))%R).
Proof.
  intros time host_sin NaN s B Ht Hr.
  split; [ | split; [ | split ] ].
  - split; [ | split; [ | split ] ].
    + rewrite !sawtooth_exact by lra.
      replace (2 * (time + 5 / 2) / 5 + 1 / 4)%R
        with (2 * time / 5 + 1 / 4 + 1)%R by lra.
      now rewrite frac_part_shift.
    + rewrite sawtooth_exact by exact Ht.
      destruct (base_fp (2 * time / 5 + 1 / 4)) as [Hlo Hhi]. lra.
    + rewrite sawtooth_exact by lra. rewrite frac_part_small; lra.
    + intros Hlt. rewrite sawtooth_exact by lra. rewrite frac_part_small; lra.
  - vm_compute. reflexivity.
  - exact (sawtooth_binary64 Hr).
  - split; [ vm_compute; reflexivity | ].
    split; [ vm_compute; reflexivity | exact sawtooth_before_jump ].
Qed.

(** Two ticks into a run with the sawtooth selected. *)
Lemma sawtooth_waveform_witness :
  let B := binary64 in
  let s := after (A := B) PrimFloat.nan
                 [SelectFunction "2"; SelectMode "closedL-auto";
                  ClickStartStop; Fire 1; Fire 1] in
  (target_function s = "2"%string /\ t s = clock (A := B) 2)
  /\ (waveform (A := exact) "2" (1 + 5 / 2)%R = waveform (A := exact) "2" 1%R
   /\ (- 1 <= waveform (A := exact) "2" 1%R < 1)%R)
  /\ (exists k, (k <= 301)%nat /\ t s = clock (A := B) k
        /\ PrimFloat.leb (-1) (waveform (A := B) "2" (t s)) = true
        /\ PrimFloat.ltb (waveform (A := B) "2" (t s)) 1 = true
        /\ (Rabs (B2R (waveform (A := B) "2" (t s))
                  - waveform (A := exact) "2" (INR k / 20))
            <= 1 / 10000000000000)%R).
Proof.
  intros B s.
  destruct (@sawtooth_waveform 1%R B64.sin PrimFloat.nan s Rle_0_1
              (after_reachable (A := B) PrimFloat.nan _))
    as ((P & R1 & _) & _ & G & _).
  split; [ split; vm_compute; reflexivity | ].
  split; [ split; [ exact P | exact R1 ] | exact G ].
Defined.

(** ** The plant at rest *)

Section ExactPlant.

Local Open Scope R_scope.

Lemma PT2_step_exact (a b u : R) :
  PT2_step (A := exact) {| ps_y1 := a; ps_y2 := b |} u
  = {| ps_y1 := a + b / 20;
       ps_y2 := b + (4 * (u - (a + b / 20)) - 2 * b) / 20 |}.
Proof.
  unfold PT2_step. cbn [ps_y1 ps_y2]. rewrite dt_exact.
  cbv [lit exact add sub mul Q2R Qnum Qden]. f_equal; lra.
Qed.

End ExactPlant.

Section PlantAtRest.

Variable host_sin : float -> float.
Local Abbreviation B := (binary64_with host_sin).

Lemma PT2_step_at_rest (v : Z) :
  (-150 <= v <= 150)%Z ->
  let u := div (Arith := B) (Number (A := B) v) (lit (Arith := B) 100) in
  PT2_step (A := B) {| ps_y1 := u; ps_y2 := 0%float |} u
  = {| ps_y1 := u; ps_y2 := 0%float |}.
Proof.
  intros Hv.
  assert (C : forall n : nat,
             (n < 301)%nat ->
             let u := div (Arith := B) (Number (A := B) (Z.of_nat n - 150))
                          (lit (Arith := B) 100) in
             PT2_step (A := B) {| ps_y1 := u; ps_y2 := 0%float |} u
             = {| ps_y1 := u; ps_y2 := 0%float |}).
  { intros n.
    do 301 (destruct n as [ | n ]; [ intros _; vm_compute; reflexivity | ]).
    intros Hn. exfalso. lia. }
  replace v with (Z.of_nat (Z.to_nat (v + 150)) - 150)%Z by lia.
  apply C. lia.
Qed.

End PlantAtRest.

(** X20.  The plant at rest on the value of its input ([y1 = u], [y2 = 0])
    stays there and returns [u], the steady-state gain being [K = 1]: over
    the reals for every [u], and in binary64 for the input [v / 100] of
    every slider position [v]. *)
Theorem plant_steady_state :
  forall (host_sin : float -> float) (v : Z) (s : globals_of float),
    let B := binary64_with host_sin in
    let u := div (Arith := B) (Number (A := B) v) (lit (Arith := B) 100) in
    (-150 <= v <= 150)%Z -> y1 s = u -> y2 s = 0%float ->
    (eval (updateSystem (A := B) u) s = u
     /\ plant_state (exec (updateSystem (A := B) u) s) = plant_state s)
    /\ (forall (s0 : globals_of R) (u0 : R),
           y1 s0 = u0 -> y2 s0 = 0%R ->
           eval (updateSystem (A := exact) u0) s0 = u0
           /\ plant_state (exec (updateSystem (A := exact) u0) s0)
              = plant_state s0).
Proof.
  intros host_sin v s B u Hv E1 E2. split.
  - pose proof (PT2_step_at_rest host_sin Hv) as E. cbv zeta in E.
    change (PT2_step (A := B) {| ps_y1 := u; ps_y2 := 0%float |} u
            = {| ps_y1 := u; ps_y2 := 0%float |}) in E.
    destruct s
      as [c1 c2 la ii ui gm tf sc cd fi ab tt' yy1 yy2 ig le ct ws tm nt].
    simpl_state_all. subst yy1 yy2.
    unfold eval, exec. rewrite updateSystem_unfold. cbn [fst snd].
    unfold plant_state. simpl_state. rewrite E. cbn [ps_y1 ps_y2].
    split; reflexivity.
  - intros s0 u0 F1 F2.
    unfold eval, exec. rewrite updateSystem_unfold. cbn [fst snd].
    unfold plant_state at 1 2 3 4. rewrite F1, F2, PT2_step_exact.
    cbn [ps_y1 ps_y2]. split.
    + lra.
    + destruct s0
        as [c1 c2 la ii ui gm tf sc cd fi ab tt' yy1 yy2 ig le ct ws tm nt].
      cbn in *. subst. unfold plant_state. cbn. f_equal; lra.
Qed.

(** The slider at its upper end, the output settled on 1.5. *)
Lemma plant_steady_state_witness :
  let B := binary64 in
  let u := div (Arith := B) (Number (A := B) 150) (lit (Arith := B) 100) in
  let s := set_y1 u (mounted (A := B) PrimFloat.nan) in
  u = 0x1.8p+0%float
  /\ eval (updateSystem (A := B) u) s = u
  /\ plant_state (exec (updateSystem (A := B) u) s) = plant_state s.
Proof.
  intros B u s.
  split; [ vm_compute; reflexivity | ].
  apply (@plant_steady_state B64.sin 150%Z s).
  - lia.
  - reflexivity.
  - vm_compute. reflexivity.
Defined.

(** ** The wiring of a tick by mode *)

(** X12.  What one tick feeds where, by mode.  openL: the slider value
    (over 100) is both the target and the plant input; humanil: the
    waveform is the target, the slider the plant input; in both the
    controller state is left alone.  closedL and closedL-auto: the controller
    is invoked once on the target (slider, or waveform) and the old [y1], and
    its output is the plant input.  openL and closedL never score. *)
Theorem tick_wiring :
  forall num (A : Arith num) (s : globals_of num) (d : num),
    let s' := exec gameLoop s in
    let target := last (channel1 s') d in
    let slider := (Number (userInput s) / lit 100)%js in
    let wave := waveform (target_function s) (t s) in
    let pid target := compute (controller_state s) target (y1 s) in
    (game_mode s = "openL"%string ->
     target = slider
     /\ plant_state s' = PT2_step (plant_state s) slider
     /\ controller_state s' = controller_state s
     /\ score s' = score s)
    /\ (game_mode s = "humanil"%string ->
        target = wave
        /\ plant_state s' = PT2_step (plant_state s) slider
        /\ controller_state s' = controller_state s)
    /\ (game_mode s = "closedL"%string ->
        target = slider
        /\ plant_state s' = PT2_step (plant_state s) (fst (pid slider))
        /\ controller_state s' = snd (pid slider)
        /\ score s' = score s)
    /\ (game_mode s = "closedL-auto"%string ->
        target = wave
        /\ plant_state s' = PT2_step (plant_state s) (fst (pid wave))
        /\ controller_state s' = snd (pid wave)).
Proof.
  intros num A s d. cbv zeta. rewrite gameLoop_tick.
  destruct s
    as [c1 c2 la ii ui gm tf sc cd fi ab tt' yy1 yy2 ig le ct ws tm nt].
  unfold tick. simpl_state. rewrite last_pushed.
  repeat split; subst gm; reflexivity.
Qed.

Lemma tick_wiring_witness :
  let s := after (A := binary64) PrimFloat.nan
                 [SelectMode "openL"; Slide 50] in
  last (channel1 (exec (gameLoop (A := binary64)) s)) 0%float
  = 0x1p-1%float
  /\ score (exec (gameLoop (A := binary64)) s) = score s.
Proof.
  intros s.
  pose proof (proj1 (@tick_wiring float binary64 s 0%float))
    as H.
  cbv zeta in H. destruct (H eq_refl) as (H1 & _ & _ & H4).
  split; [ rewrite H1; vm_compute; reflexivity | exact H4 ].
Defined.

(** X13.  The controls the template disables are without effect on a tick:
    in openL and closedL the selected target function, in closedL-auto the
    slider value. *)
Theorem disabled_controls_have_no_effect :
  forall num (A : Arith num) (s : globals_of num),
    (forall f, game_mode s = "openL"%string \/ game_mode s = "closedL"%string ->
               simulation (exec gameLoop (set_target_function f s))
               = simulation (exec gameLoop s))
    /\ (forall u, game_mode s = "closedL-auto"%string ->
                  simulation (exec gameLoop (set_userInput u s))
                  = simulation (exec gameLoop s)).
Proof.
  intros num A s. rewrite gameLoop_tick.
  destruct s
    as [c1 c2 la ii ui gm tf sc cd fi ab tt' yy1 yy2 ig le ct ws tm nt].
  split.
  - intros f E. rewrite gameLoop_tick. simpl_state_all.
    destruct E; subst gm; reflexivity.
  - intros u E. rewrite gameLoop_tick. simpl_state_all.
    subst gm; reflexivity.
Qed.

Lemma disabled_controls_have_no_effect_witness :
  let s := after (A := binary64) PrimFloat.nan [SelectMode "closedL-auto"] in
  simulation (exec (gameLoop (A := binary64)) (set_userInput 120%Z s))
  = simulation (exec (gameLoop (A := binary64)) s).
Proof.
  intros s.
  exact (proj2 (@disabled_controls_have_no_effect float binary64 s)
               120%Z eq_refl).
Defined.

(** ** The clock *)

(** X14.  In every reachable state the clock is 0 advanced by [dt] a whole
    number of times: only a tick and Reset assign [t]. *)
Theorem clock_counts_ticks :
  forall num (A : Arith num) (NaN : num) (s : globals_of num),
    reachable NaN s -> exists k, t s = clock k.
Proof.
  intros num A NaN s Hreach.
  induction Hreach as [ | s e s' _ (k & Hk) Hstep ].
  - now exists 0%nat.
  - destruct (quiet s e) eqn:Q.
    + exists k. rewrite <- Hk. apply simulation_t.
      eapply quiet_step_simulation; eassumption.
    + destruct e; try discriminate; unfold step in Hstep.
      * exists 0%nat. injection Hstep as <-.
        assert (E : simulation (exec (bind (reset NaN) (fun _ => flush)) s)
                    = simulation (exec (reset NaN) s))
          by (rewrite exec_seq; apply flush_simulation).
        rewrite (simulation_t E).
        exact (f_equal (fun x => fst (fst (fst (fst x))))
                       (reset_simulation NaN s)).
      * unfold quiet in Q.
        destruct (timer_callback s handle) as [ [ | ] | ]; try discriminate.
        injection Hstep as <-. exists (S k).
        rewrite (simulation_t (tick_simulation s)), tick_t, Hk. reflexivity.
Qed.

(** ** The buffer before it is full, and on series of any length *)

Section Buffer.

Context {num : Type}.
Variable NaN : num.

Lemma skipn_repeat_app (x : num) (n k : nat) (r : list num) :
  (k <= n)%nat -> skipn k (repeat x n ++ r) = repeat x (n - k) ++ r.
Proof.
  revert k. induction n as [ | n IH ]; intros [ | k ] L; cbn;
    try reflexivity; try lia.
  apply IH. lia.
Qed.

End Buffer.

(** X15.  After a reset and [k <= N] appends each series is [N - k]
    sentinels followed by the [k] appended values in order. *)
Theorem buffer_fills_from_the_right :
  forall num (A : Arith num) (NaN : num) (s : globals_of num)
         (vs : list (num * num)),
    (List.length vs <= listSize)%nat ->
    channel1 (appends vs (exec (reset NaN) s))
    = repeat NaN (listSize - List.length vs) ++ map fst vs
    /\ channel2 (appends vs (exec (reset NaN) s))
       = repeat NaN (listSize - List.length vs) ++ map snd vs.
Proof.
  intros num A NaN s vs L.
  destruct (reset_channels NaN s) as [E1 E2].
  assert (L1 : List.length (channel1 (exec (reset NaN) s)) = listSize)
    by (rewrite E1; apply blank_length).
  assert (L2 : List.length (channel2 (exec (reset NaN) s)) = listSize)
    by (rewrite E2; apply blank_length).
  destruct (appends_channels vs _ L1 L2) as [H1 H2].
  rewrite H1, H2, E1, E2. unfold blank.
  now rewrite !skipn_repeat_app by exact L.
Qed.

(** X16.  [addValues] on series of any length: a series shorter than the
    capacity grows by one, any other keeps its length (one value is evicted
    per append, so an over-long series is never cut back); the appended
    value is always the last one. *)
Theorem addValues_on_any_series :
  forall num (v1 v2 : num) (s : globals_of num) (d : num),
    let s' := exec (addValues v1 v2) s in
    List.length (channel1 s')
    = (if (List.length (channel1 s) <? listSize)%nat
       then S (List.length (channel1 s)) else List.length (channel1 s))
    /\ List.length (channel2 s')
       = (if (List.length (channel2 s) <? listSize)%nat
          then S (List.length (channel2 s)) else List.length (channel2 s))
    /\ last (channel1 s') d = v1 /\ last (channel2 s') d = v2.
Proof.
  intros num v1 v2 s d. cbv zeta. rewrite addValues_channels.
  assert (G : forall (l : list num) (v : num),
             List.length (pushed l v)
             = (if (List.length l <? listSize)%nat
                then S (List.length l) else List.length l)).
  { intros l v. unfold pushed. rewrite length_app. cbn [List.length].
    destruct (List.length l <? listSize)%nat eqn:E.
    - apply Nat.ltb_lt in E.
      replace (listSize <? List.length l + 1)%nat with false
        by (symmetry; apply Nat.ltb_ge; lia).
      rewrite length_app. cbn. lia.
    - apply Nat.ltb_ge in E.
      replace (listSize <? List.length l + 1)%nat with true
        by (symmetry; apply Nat.ltb_lt; lia).
      destruct l; cbn in *; [ rewrite listSize_200 in E; lia | ].
      rewrite length_app. cbn. lia. }
  destruct s
    as [c1 c2 la ii ui gm tf sc cd fi ab tt' yy1 yy2 ig le ct ws tm nt].
  simpl_state. rewrite !G, !last_pushed. now repeat split.
Qed.

Lemma clock_counts_ticks_witness :
  let s := after (A := binary64) PrimFloat.nan
                 [SelectMode "closedL-auto"; ClickStartStop; Fire 1; Fire 1] in
  exists k, t s = clock (A := binary64) k.
Proof.
  intros s.
  apply (@clock_counts_ticks float binary64 PrimFloat.nan s).
  apply (after_reachable (A := binary64)).
Defined.

Lemma buffer_fills_from_the_right_witness :
  let NaN := PrimFloat.nan in
  let vs := [(1%float, 2%float); (3%float, 4%float)] in
  let s := appends vs (exec (@reset float binary64 NaN)
                            (@mounted float binary64 NaN)) in
  channel1 s = repeat NaN (listSize - 2) ++ [1%float; 3%float]
  /\ channel2 s = repeat NaN (listSize - 2) ++ [2%float; 4%float].
Proof.
  intros NaN vs s.
  apply (@buffer_fills_from_the_right float binary64 NaN
           (@mounted float binary64 NaN) vs).
  rewrite listSize_200. unfold vs. cbn [List.length]. lia.
Defined.
